(** * present_perfect_quiz.py: a shallow embedding and its properties

    The quiz program is a command-line script: it reads question data,
    asks questions on standard input/output, compares answers after
    normalisation and keeps a score history in a JSON file.

    The embedding follows the script function by function.

    - Text ([Text]): a Python [str] is a list of characters; a character is
      a code point below 256 (the Latin-1 block, one [ascii] each), and
      [isspace] and [lower_char] are Python's [str.isspace] and [str.lower]
      on those code points.
    - Effects: every function that reads the keyboard, prints, draws
      random numbers, reads the clock or touches [scores.json] is a
      computation [M A] in a state-and-exception monad over a [world].
    - Numbers: scores and totals are Python ints ([Z]); the float quotient
      [score / total], and the test that says when it is too large for a
      float, are a parameter [fdiv] of the score functions, and
      [float_div] is Python's own division. *)

From Stdlib Require Import ZArith QArith Qround Qabs Ascii String List Lia Bool.
From Stdlib Require Import DecimalString.
From stdpp Require Import base option list sorting gmap strings.


(** ** Text: Python [str] values and the built-in methods the script calls *)

Module Text.

Abbreviation str := (list ascii).

(** A literal of the script, as a [str]. *)
Definition lit (s : string) : str := list_ascii_of_string s.

(** [c.isspace()] for a code point below 256: TAB..CR, FS..US, SPACE,
    NEL (0x85) and NBSP (0xA0). *)
Definition isspace (c : ascii) : bool :=
  let n := N_of_ascii c in
  (((9 <=? n) && (n <=? 13)) || ((28 <=? n) && (n <=? 32))
   || (n =? 133) || (n =? 160))%N.

(** [c.lower()] for a code point below 256: A..Z and the Latin-1 capitals
    0xC0..0xDE (0xD7, the multiplication sign, is not a letter) move up by
    32; every other character is unchanged. *)
Definition lower_char (c : ascii) : ascii :=
  let n := N_of_ascii c in
  (if ((65 <=? n) && (n <=? 90))
      || ((192 <=? n) && (n <=? 222) && negb (n =? 215))
   then ascii_of_N (n + 32) else c)%N.

(** [s.lower()] *)
Definition lower (s : str) : str := map lower_char s.

(** [s.lstrip()]: drop the leading whitespace. *)
Fixpoint lstrip (s : str) : str :=
  match s with
  | [] => []
  | c :: s' => if isspace c then lstrip s' else s
  end.

(** [s.rstrip()]: drop the trailing whitespace. *)
Definition rstrip (s : str) : str := rev (lstrip (rev s)).

(** [s.strip()] *)
Definition strip (s : str) : str := lstrip (rstrip s).

(** [s.split()] with no separator: the maximal runs of non-whitespace
    characters, in order.  [word] holds the characters of the run being
    scanned. *)
Fixpoint split_from (word : str) (s : str) : list str :=
  match s with
  | [] => match word with [] => [] | _ => [word] end
  | c :: s' =>
      if isspace c
      then match word with
           | [] => split_from [] s'
           | _ => word :: split_from [] s'
           end
      else split_from (word ++ [c]) s'
  end.

Definition split (s : str) : list str := split_from [] s.

(** [sep.join(l)] *)
Fixpoint join (sep : str) (l : list str) : str :=
  match l with
  | [] => []
  | w :: rest =>
      match rest with
      | [] => w
      | _ => w ++ sep ++ join sep rest
      end
  end.

(** [x in keys] / [x == y] on strings. *)
Definition str_eqb (x y : str) : bool := bool_decide (x = y).

End Text.

Import Text.

(** ** The answer matcher (lines 110-121 of the script) *)

(** [" ".join(s.strip().lower().split())] *)
Definition normalize_answer (s : str) : str :=
  join (lit " ") (split (lower (strip s))).

(** The [for accepted in accepted_answers] loop: [True] at the first
    accepted answer whose normal form is [user], [False] when the list is
    exhausted. *)
Fixpoint answer_matches_loop (user : str) (accepted_answers : list str) : bool :=
  match accepted_answers with
  | [] => false
  | accepted :: rest =>
      if str_eqb user (normalize_answer accepted) then true
      else answer_matches_loop user rest
  end.

Definition answer_matches (user_answer : str) (accepted_answers : list str) : bool :=
  let user := normalize_answer user_answer in
  answer_matches_loop user accepted_answers.

(** The normal form in the words of the documentation: trim, lower-case,
    and replace every run of whitespace by one space. *)
Fixpoint collapse_spaces (s : str) : str :=
  match s with
  | [] => []
  | c :: s' =>
      if isspace c
      then match s' with
           | [] => lit " "
           | c' :: _ => if isspace c' then collapse_spaces s'
                        else lit " " ++ collapse_spaces s'
           end
      else c :: collapse_spaces s'
  end.

Definition trim_lower_collapse (s : str) : str :=
  collapse_spaces (lower (strip s)).

(** A string has no leading (trailing) whitespace. *)
Definition no_leading_space (s : str) : Prop :=
  forall c r, s = c :: r -> isspace c = false.

Definition no_trailing_space (s : str) : Prop :=
  forall a c, s = a ++ [c] -> isspace c = false.


(** A word of [split]: not empty and without whitespace. *)
Definition is_word (w : str) : Prop :=
  w <> [] /\ Forall (fun c => isspace c = false) w.

(** ** The data the script works on *)

(** One record of [scores.json]:
    [{"set_id", "set_title", "score", "total", "date"}]. *)
Record entry := Entry {
  set_id : str;
  set_title : str;
  score : Z;
  total : Z;
  date : str
}.

(** What [open(SCORES_FILE)] followed by [json.load] finds.  A JSON object
    is kept as the one key the script reads: [history] is [None] when the
    object has no ["history"] key, and the list of its records otherwise. *)
Inductive scores_file :=
  | Missing                 (* [SCORES_FILE.exists()] is false *)
  | Unreadable              (* [open] or [read] raises [OSError] (= [IOError]) *)
  | Undecodable             (* not UTF-8: [read] raises [UnicodeDecodeError] *)
  | BadSyntax               (* not JSON: [json.load] raises [JSONDecodeError] *)
  | NotAnObject             (* JSON, but a list, string, number, bool or null *)
  | Document (history : option (list entry)).

(** A question record of the JSON data.  A key that the record does not
    have is [None]; ["options"] is a dictionary in insertion order. *)
Record question := Question {
  q_type : option str;
  q_question : option str;
  q_prompt : option str;
  q_options : option (list (str * str));
  q_correct_option : option str;
  q_answers : option (list str);
  q_explanation : option str
}.

(** The exceptions that the modelled statements can raise. *)
Inductive exn :=
  | EOFError | KeyError | IndexError | ZeroDivisionError | OverflowError
  | AttributeError | UnicodeDecodeError | OSError.

(** One [print] call (or the prompt of one [input] call).  Lines that
    interpolate numbers or use characters outside Latin-1 have a constructor
    of their own; the comment gives the text that the script prints. *)
Inductive line :=
  | Plain (s : str)                      (* print(s) *)
  | Prompt (s : str)                     (* the prompt of input(s) *)
  | QuestionHeader (num total : nat)     (* "\n--- Question {num} of {total} ---" *)
  | OptionLine (label option : str)      (* "  {label}) {option}" *)
  | CorrectMark                          (* "(check mark) Correct!" *)
  | IncorrectMark                        (* "(cross) Incorrect." *)
  | IncorrectChoice (label text : str)   (* "(cross) Incorrect. Correct answer: {label}) {text}" *)
  | CorrectAnswers (s : str)             (* "Correct answer(s):", s *)
  | Explanation (s : str)                (* "Explanation:", s *)
  | RetryComplete (n : nat).             (* "\nRetry complete. {n} questions reviewed." *)

(** ** The world and the monad of effects *)

(** Everything outside the process that the script reads or changes.
    [stdin] holds the lines the user is still going to type, [stdout] what
    has been printed so far.  [rng] and [clock] are the values that
    [random] and [datetime.now().isoformat()] will deliver, indexed by the
    number of earlier calls.  [presented] is a ghost field: the questions
    handed to [ask_open_question] / [ask_mc_question] so far, in order.
    [scores_writable] says whether writing [scores.json] succeeds; when it
    does not, [torn] says how: [None] when [open(SCORES_FILE, "w")] itself
    fails, and [Some f] when the file has been opened, and so truncated,
    and the write then breaks off, leaving the file in state [f]. *)
Record world := World {
  stdin : list str;
  stdout : list line;
  scores : scores_file;
  scores_writable : bool;
  rng : nat -> nat;
  draws : nat;
  clock : nat -> str;
  ticks : nat;
  presented : list question;
  torn : option scores_file
}.

(** How a call ends: it returns a value or an exception propagates. *)
Inductive outcome (A : Type) :=
  | Ok (a : A)
  | Raise (e : exn).
Arguments Ok {A} a.
Arguments Raise {A} e.

Definition M (A : Type) : Type := world -> world * outcome A.

Definition ret {A} (a : A) : M A := fun w => (w, Ok a).

Definition raise {A} (e : exn) : M A := fun w => (w, Raise e).

Definition bind {A B} (m : M A) (k : A -> M B) : M B :=
  fun w =>
    match m w with
    | (w', Ok a) => k a w'
    | (w', Raise e) => (w', Raise e)
    end.

Declare Scope py_scope.
Delimit Scope py_scope with py.
Notation "x <- m ;; k" := (bind m (fun x => k))
  (at level 100, m at next level, right associativity) : py_scope.
Notation "m ;; k" := (bind m (fun _ => k))
  (at level 100, right associativity) : py_scope.
Open Scope py_scope.

Definition lift {A} (r : outcome A) : M A := fun w => (w, r).

(** [d[key]] on a record: [KeyError] when the key is absent. *)
Definition item {A} (field : option A) : M A :=
  match field with
  | Some a => ret a
  | None => raise KeyError
  end.

(** [print(...)] *)
Definition print (l : line) : M unit :=
  fun w => (World (stdin w) (stdout w ++ [l]) (scores w) (scores_writable w)
                  (rng w) (draws w) (clock w) (ticks w) (presented w) (torn w), Ok tt).

(** [input(prompt)]: writes the prompt and returns the next line typed;
    [EOFError] when the input has ended. *)
Definition input (prompt : str) : M str :=
  fun w =>
    let out := stdout w ++ [Prompt prompt] in
    match stdin w with
    | [] => (World [] out (scores w) (scores_writable w)
                   (rng w) (draws w) (clock w) (ticks w) (presented w) (torn w),
             Raise EOFError)
    | l :: rest => (World rest out (scores w) (scores_writable w)
                          (rng w) (draws w) (clock w) (ticks w) (presented w) (torn w),
                    Ok l)
    end.

(** Ghost step: record that [q] is being asked. *)
Definition present (q : question) : M unit :=
  fun w => (World (stdin w) (stdout w) (scores w) (scores_writable w)
                  (rng w) (draws w) (clock w) (ticks w) (presented w ++ [q]) (torn w),
            Ok tt).

(** [datetime.now().isoformat()] *)
Definition now_isoformat : M str :=
  fun w => (World (stdin w) (stdout w) (scores w) (scores_writable w)
                  (rng w) (draws w) (clock w) (S (ticks w)) (presented w) (torn w),
            Ok (clock w (ticks w))).

(** [random.randrange(n)], as [random.shuffle] calls it. *)
Definition randbelow (n : nat) : M nat :=
  fun w => (World (stdin w) (stdout w) (scores w) (scores_writable w)
                  (rng w) (S (draws w)) (clock w) (ticks w) (presented w) (torn w),
            Ok (rng w (draws w) mod n)).

(** [x[i], x[j] = x[j], x[i]] *)
Definition swap {A} (x : list A) (i j : nat) : list A :=
  match x !! i, x !! j with
  | Some a, Some b => <[j:=a]> (<[i:=b]> x)
  | _, _ => x
  end.

(** [random.shuffle(x)]:
    [for i in reversed(range(1, len(x))): j = randbelow(i + 1); swap].
    The argument [i] counts down from [len(x) - 1]. *)
Fixpoint shuffle_from {A} (i : nat) (x : list A) : M (list A) :=
  match i with
  | O => ret x
  | S i' =>
      j <- randbelow (i + 1) ;;
      shuffle_from i' (swap x i j)
  end.

Definition random_shuffle {A} (x : list A) : M (list A) :=
  shuffle_from (length x - 1) x.

(** [x[:n]] for a Python int [n]. *)
Definition slice_to {A} (x : list A) (n : Z) : list A :=
  if (0 <=? n)%Z then take (Z.to_nat n) x
  else take (Z.to_nat (Z.of_nat (length x) + n)) x.

(** [key in d] and [d[key]] for a dictionary kept in insertion order. *)
Fixpoint dict_get (d : list (str * str)) (key : str) : option str :=
  match d with
  | [] => None
  | (k, v) :: rest => if str_eqb key k then Some v else dict_get rest key
  end.

Definition dict_mem (d : list (str * str)) (key : str) : bool :=
  match dict_get d key with Some _ => true | None => false end.

(** [t == "mc"] *)
Definition is_mc (t : str) : bool := str_eqb t (lit "mc").

Definition nl : str := ["010"%char].
Definition ruler (c : string) : str := concat (repeat (lit c) 60).

(** ** The score history (lines 51-94) *)

(** [data.get("history", [])] on what [json.load] returned. *)
Definition get_history (f : scores_file) : outcome (list entry) :=
  match f with
  | Document (Some history) => Ok history
  | Document None => Ok []
  | NotAnObject => Raise AttributeError
  | Undecodable => Raise UnicodeDecodeError
  | BadSyntax => Ok []                  (* except json.JSONDecodeError *)
  | Unreadable => Ok []                 (* except IOError *)
  | Missing => Ok []                    (* if not SCORES_FILE.exists() *)
  end.

(** [load_scores()]: the file is read, the world is left as it is. *)
Definition load_scores : M (list entry) :=
  fun w => (w, get_history (scores w)).

(** [with open(SCORES_FILE, "w") as f: json.dump({"history": history}, f)].
    Opening the file for writing empties it: a write that breaks off after
    the open leaves what [torn] says, not the old content. *)
Definition write_scores (history : list entry) : M unit :=
  fun w =>
    if scores_writable w
    then (World (stdin w) (stdout w) (Document (Some history)) (scores_writable w)
                (rng w) (draws w) (clock w) (ticks w) (presented w) (torn w),
          Ok tt)
    else match torn w with
         | None => (w, Raise OSError)
         | Some f =>
             (World (stdin w) (stdout w) f (scores_writable w)
                    (rng w) (draws w) (clock w) (ticks w) (presented w) (torn w),
              Raise OSError)
         end.

Definition save_score (sid title : str) (s t : Z) : M unit :=
  history <- load_scores ;;
  d <- now_isoformat ;;
  let history := history ++ [Entry sid title s t d] in
  write_scores history.

(** The value of one key of the dictionary that [get_last_and_best]
    returns: [{"last": (score, total) | None, "best": (score, total) | None}]. *)
Record stats := Stats {
  last : option (Z * Z);
  best : option (Z * Z)
}.

(** True division of Python ints.  [fdiv s t] stands for the float that
    [s / t] returns, taken as the rational number it denotes, and
    [too_large fdiv s t] says that the quotient does not fit a float.  The
    functions below are parametric in both, so that nothing depends on how
    the quotient is rounded or on where the floats end. *)
Record division := Division {
  quotient :> Z -> Z -> Q;
  too_large : Z -> Z -> bool
}.

(** [s / t]: [ZeroDivisionError] when [t] is zero, [OverflowError] when the
    quotient is too large for a float. *)
Definition truediv (fdiv : division) (s t : Z) : outcome Q :=
  if (t =? 0)%Z then Raise ZeroDivisionError
  else if too_large fdiv s t then Raise OverflowError
  else Ok (fdiv s t).

(** The quotient without rounding and without bound. *)
Definition exact_div : division :=
  Division (fun s t => inject_Z s / inject_Z t)%Q (fun _ _ => false).

(** Python's own division: the quotient is rounded to the nearest binary64
    number, halves to the even one, and is too large when the rounded
    value reaches [2^1024]. *)
Definition round_half_even (x : Q) : Z :=
  let f := Qfloor x in
  match (x - inject_Z f ?= 1 # 2)%Q with
  | Lt => f
  | Gt => (f + 1)%Z
  | Eq => if Z.even f then f else (f + 1)%Z
  end.

Definition two_to (k : Z) : Q := Qpower 2 k.

(** [floor (log2 x)] for a positive [x]. *)
Definition binade (x : Q) : Z :=
  let e := (Z.log2 (Qnum x) - Z.log2 (Zpos (Qden x)))%Z in
  if Qle_bool (two_to e) x then e else (e - 1)%Z.

(** The binary64 number nearest to a positive [x]: a multiple of [2^u],
    where [u] is the exponent of the last of 53 bits, and not below the
    exponent of the subnormal numbers. *)
Definition nearest_double (x : Q) : Q :=
  let u := Z.max (binade x - 52) (-1074) in
  (inject_Z (round_half_even (x / two_to u)) * two_to u)%Q.

Definition float_quotient (s t : Z) : Q :=
  let x := (inject_Z s / inject_Z t)%Q in
  match (x ?= 0)%Q with
  | Eq => 0%Q
  | Gt => nearest_double x
  | Lt => (- nearest_double (- x))%Q
  end.

Definition float_div : division :=
  Division float_quotient
           (fun s t => Qle_bool (two_to 1024) (Qabs (float_quotient s t))).

(** [x > y] on two floats. *)
Definition Qgtb (x y : Q) : bool := negb (Qle_bool x y).

(** [result[sid]["best"] is None or (s / t) > (best[0] / best[1])]; the
    left quotient is computed first, and neither is when [best] is [None]. *)
Definition improves (fdiv : division) (s t : Z) (b : option (Z * Z)) : outcome bool :=
  match b with
  | None => Ok true
  | Some (bs, bt) =>
      match truediv fdiv s t with
      | Raise e => Raise e
      | Ok x =>
          match truediv fdiv bs bt with
          | Raise e => Raise e
          | Ok y => Ok (Qgtb x y)
          end
      end
  end.

(** The first loop: [result[sid] = {"last": None, "best": None}] for every
    key of [sets_data] and for ["all"]. *)
Definition init_result (set_ids : list str) : gmap str stats :=
  foldl (fun result sid => <[sid := Stats None None]> result) ∅
        (set_ids ++ [lit "all"]).

(** The body of [for entry in history]. *)
Definition record_entry (fdiv : division) (result : gmap str stats) (e : entry)
  : outcome (gmap str stats) :=
  let sid := set_id e in
  (* if sid not in result: result[sid] = {"last": None, "best": None} *)
  let result :=
    match result !! sid with
    | Some _ => result
    | None => <[sid := Stats None None]> result
    end in
  let s := score e in
  let t := total e in
  let old := default (Stats None None) (result !! sid) in
  (* result[sid]["last"] = (s, t) *)
  let result := <[sid := Stats (Some (s, t)) (best old)]> result in
  match improves fdiv s t (best old) with
  | Raise x => Raise x
  | Ok true => Ok (<[sid := Stats (Some (s, t)) (Some (s, t))]> result)
  | Ok false => Ok result
  end.

Fixpoint scan_history (fdiv : division) (result : gmap str stats)
    (history : list entry) : outcome (gmap str stats) :=
  match history with
  | [] => Ok result
  | e :: rest =>
      match record_entry fdiv result e with
      | Raise x => Raise x
      | Ok result => scan_history fdiv result rest
      end
  end.

(** [get_last_and_best(sets_data)]; [set_ids] is [list(sets_data.keys())]. *)
Definition get_last_and_best (fdiv : division) (set_ids : list str)
  : M (gmap str stats) :=
  history <- load_scores ;;
  lift (scan_history fdiv (init_result set_ids) history).

(** ** The question presenter (lines 124-158) *)

(** [q.get("prompt") or q.get("question", "")] *)
Definition open_text (q : question) : str :=
  match q_prompt q with
  | Some (c :: p) => c :: p
  | _ => default [] (q_question q)
  end.

Definition ask_open_question (q : question) (question_num total : nat) : M bool :=
  present q ;;
  print (QuestionHeader question_num total) ;;
  print (Plain (open_text q)) ;;
  l <- input (lit "Your answer: ") ;;
  let user_answer := strip l in
  answers <- item (q_answers q) ;;
  let is_correct := answer_matches user_answer answers in
  (if is_correct then print CorrectMark
   else print IncorrectMark ;;
        print (CorrectAnswers (join (lit " / ") answers))) ;;
  explanation <- item (q_explanation q) ;;
  print (Explanation explanation) ;;
  ret is_correct.

(** [for label, option in q["options"].items(): print(...)] *)
Fixpoint print_options (options : list (str * str)) : M unit :=
  match options with
  | [] => ret tt
  | (label, option) :: rest => print (OptionLine label option) ;; print_options rest
  end.

(** The [while True] loop of [ask_mc_question] over the lines still to be
    typed: what it prints, what it leaves unread, and how it ends. *)
Fixpoint read_choice (options : list (str * str)) (lines : list str)
  : list line * list str * outcome str :=
  let prompt := Prompt (lit "Your choice (a/b/c/d): ") in
  match lines with
  | [] => ([prompt], [], Raise EOFError)
  | l :: rest =>
      let user_answer := lower (strip l) in
      if dict_mem options user_answer then ([prompt], rest, Ok user_answer)
      else
        let '(out, unread, r) := read_choice options rest in
        (prompt :: Plain (lit "Please type a, b, c, or d.") :: out, unread, r)
  end.

Definition input_choice (options : list (str * str)) : M str :=
  fun w =>
    let '(out, unread, r) := read_choice options (stdin w) in
    (World unread (stdout w ++ out) (scores w) (scores_writable w)
           (rng w) (draws w) (clock w) (ticks w) (presented w) (torn w), r).

Definition ask_mc_question (q : question) (question_num total : nat) : M bool :=
  present q ;;
  print (QuestionHeader question_num total) ;;
  stem <- item (q_question q) ;;
  print (Plain stem) ;;
  options <- item (q_options q) ;;
  print_options options ;;
  user_answer <- input_choice options ;;
  correct_option <- item (q_correct_option q) ;;
  let is_correct := str_eqb user_answer correct_option in
  (if is_correct then print CorrectMark
   else correct_text <- item (dict_get options correct_option) ;;
        print (IncorrectChoice correct_option correct_text)) ;;
  explanation <- item (q_explanation q) ;;
  print (Explanation explanation) ;;
  ret is_correct.

(** ** The runners (lines 161-207 and 278-297) *)

(** [if q["type"] == "mc": ask_mc_question(...) else: ask_open_question(...)] *)
Definition ask_by_item (q : question) (num total : nat) : M bool :=
  t <- item (q_type q) ;;
  if is_mc t then ask_mc_question q num total
  else ask_open_question q num total.

(** The same with [q.get("type") == "mc"]. *)
Definition ask_by_get (q : question) (num total : nat) : M bool :=
  match q_type q with
  | Some t => if is_mc t then ask_mc_question q num total
              else ask_open_question q num total
  | None => ask_open_question q num total
  end.

(** [for i, q in enumerate(qs)] with the counters of [run_set] and
    [run_practice_section]; [i] is the index of the head of [qs]. *)
Fixpoint quiz_loop (ask : question -> nat -> nat -> M bool) (i : nat)
    (qs : list question) (total score : nat) (wrong_indices : list nat)
  : M (nat * list nat) :=
  match qs with
  | [] => ret (score, wrong_indices)
  | q :: rest =>
      let num := i + 1 in
      correct <- ask q num total ;;
      if correct then quiz_loop ask (S i) rest total (score + 1) wrong_indices
      else quiz_loop ask (S i) rest total score (wrong_indices ++ [i])
  end.

Definition run_set (questions : list question) (title : str) (shuffle : bool)
    (max_questions : option Z) : M (nat * nat * list nat * list question) :=
  let qs := questions in
  qs <- (if shuffle then random_shuffle qs else ret qs) ;;
  let qs :=
    match max_questions with
    | Some n => if (n <? Z.of_nat (length qs))%Z then slice_to qs n else qs
    | None => qs
    end in
  let total := length qs in
  print (Plain (nl ++ ruler "=")) ;;
  print (Plain title) ;;
  print (Plain (ruler "=")) ;;
  r <- quiz_loop ask_by_item 0 qs total 0 [] ;;
  ret (r.1, total, r.2, qs).

Definition run_practice_section (section_title : str) (questions : list question)
  : M (nat * nat * list nat * list question) :=
  let qs := questions in
  let total := length qs in
  print (Plain (nl ++ ruler "=")) ;;
  print (Plain (lit "  " ++ section_title)) ;;
  print (Plain (ruler "=")) ;;
  r <- quiz_loop ask_by_get 0 qs total 0 [] ;;
  ret (r.1, total, r.2, qs).

(** [[questions_list[i] for i in wrong_indices]] *)
Fixpoint pick (questions_list : list question) (wrong_indices : list nat)
  : M (list question) :=
  match wrong_indices with
  | [] => ret []
  | i :: rest =>
      q <- match questions_list !! i with
           | Some q => ret q
           | None => raise IndexError
           end ;;
      qs <- pick questions_list rest ;;
      ret (q :: qs)
  end.

(** [for i, q in enumerate(to_retry)]: the answers are not counted. *)
Fixpoint retry_loop (i : nat) (to_retry : list question) (total : nat) : M unit :=
  match to_retry with
  | [] => ret tt
  | q :: rest =>
      let num := i + 1 in
      ask_by_item q num total ;;
      retry_loop (S i) rest total
  end.

Definition retry_wrong (questions_list : list question) (wrong_indices : list nat)
    (title : str) : M unit :=
  match wrong_indices with
  | [] => ret tt
  | _ =>
      to_retry <- pick questions_list wrong_indices ;;
      print (Plain (nl ++ ruler "-")) ;;
      print (Plain (lit "Retry: questions you got wrong")) ;;
      print (Plain (ruler "-")) ;;
      retry_loop 0 to_retry (length to_retry) ;;
      print (RetryComplete (length to_retry))
  end.

(** ** Vocabulary of the statements *)

(** The records of [history] whose key is [k], in stored order. *)
Definition entries_for (k : str) (history : list entry) : list entry :=
  filter (fun e => set_id e = k) history.

(** The ratio [score / total] of a record, as the script computes it. *)
Definition ratio (fdiv : division) (e : entry) : Q :=
  fdiv (score e) (total e).

(** One record, seen from its own key: what [record_entry] does to the
    value stored under [set_id e]. *)
Definition update_stats (fdiv : division) (old : stats) (e : entry) : outcome stats :=
  match improves fdiv (score e) (total e) (best old) with
  | Raise x => Raise x
  | Ok true => Ok (Stats (Some (score e, total e)) (Some (score e, total e)))
  | Ok false => Ok (Stats (Some (score e, total e)) (best old))
  end.

(** A line that [ask_mc_question] takes as a choice among [options]. *)
Definition accepted_choice (options : list (str * str)) (l : str) : bool :=
  dict_mem options (lower (strip l)).

(** A world in which nothing has happened yet: the user will type [lines]
    and [scores.json] is in state [f]. *)
Definition start (lines : list str) (f : scores_file) : world :=
  World lines [] f true (fun n => n) 0 (fun _ => lit "2024-01-01T00:00:00") 0 []
        None.

(** The world [w] with [scores.json] in state [f]. *)
Definition with_scores (f : scores_file) (w : world) : world :=
  World (stdin w) (stdout w) f (scores_writable w)
        (rng w) (draws w) (clock w) (ticks w) (presented w) (torn w).

(** Sample data. *)
Definition sample_mc : question :=
  Question (Some (lit "mc")) (Some (lit "She ___ to school."))
           None (Some [(lit "a", lit "go"); (lit "b", lit "goes")])
           (Some (lit "b")) None (Some (lit "Third person singular.")).

Definition sample_open : question :=
  Question (Some (lit "open")) None (Some (lit "How often? (3x)"))
           None None (Some [lit "three times"]) (Some (lit "Use 'times'.")).

(** The same question as [sample_mc] with its labels in capitals. *)
Definition sample_mc_capitals : question :=
  Question (Some (lit "mc")) (Some (lit "She ___ to school."))
           None (Some [(lit "A", lit "go"); (lit "B", lit "goes")])
           (Some (lit "B")) None (Some (lit "Third person singular.")).

Definition sample_history : list entry :=
  [ Entry (lit "s1") (lit "Set 1") 1 2 (lit "2024-01-01T10:00:00");
    Entry (lit "s2") (lit "Set 2") 3 3 (lit "2024-01-01T11:00:00");
    Entry (lit "s1") (lit "Set 1") 2 2 (lit "2024-01-02T10:00:00");
    Entry (lit "s1") (lit "Set 1") 4 4 (lit "2024-01-03T10:00:00") ].

(** Two records whose quotients are different numbers and the same float:
    [(2^53 + 1) / 2^53] rounds to [1.0]. *)
Definition rounding_history : list entry :=
  [ Entry (lit "s1") (lit "Set 1") 1 1 (lit "2024-01-01T10:00:00");
    Entry (lit "s1") (lit "Set 1") (2 ^ 53 + 1) (2 ^ 53) (lit "2024-01-02T10:00:00") ].

(** Two runs of a set that has no questions. *)
Definition empty_set_history : list entry :=
  [ Entry (lit "s1") (lit "Set 1") 0 0 (lit "2024-01-01T10:00:00");
    Entry (lit "s1") (lit "Set 1") 0 0 (lit "2024-01-02T10:00:00") ].

(** The division [s / t] returns: [t] is not zero and the quotient fits
    a float. *)
Definition divides (fdiv : division) (s t : Z) : Prop :=
  t <> 0%Z /\ too_large fdiv s t = false.

(** [b] is the (score, total) of the first record of [es] whose ratio is
    the greatest; when [es] has two records or more, every one of them has
    been divided, so that every ratio is a quotient. *)
Definition first_maximum (fdiv : division) (es : list entry)
    (b : option (Z * Z)) : Prop :=
  match es with
  | [] => b = None
  | _ =>
      exists i e,
        es !! i = Some e /\ b = Some (score e, total e)
        /\ (forall e', e' ∈ es -> (ratio fdiv e' <= ratio fdiv e)%Q)
        /\ (forall j e', j < i -> es !! j = Some e' ->
                         (ratio fdiv e' < ratio fdiv e)%Q)
        /\ (2 <= length es ->
            forall e', e' ∈ es -> divides fdiv (score e') (total e'))
  end.

(** The value under key [k], or the empty value when [k] is absent. *)
Definition stats_of (result : gmap str stats) (k : str) : stats :=
  default (Stats None None) (result !! k).

(** The loop invariant of [for entry in history]: under every key, [best]
    is the first maximum of the records of that key seen so far. *)
Definition scanned (fdiv : division) (result : gmap str stats)
    (seen : list entry) : Prop :=
  forall k, first_maximum fdiv (entries_for k seen) (best (stats_of result k))
            /\ (entries_for k seen <> [] -> is_Some (result !! k)).

(** Every stored best can be divided. *)
Definition dividable_bests (fdiv : division) (result : gmap str stats) : Prop :=
  forall k st bs bt,
    result !! k = Some st -> best st = Some (bs, bt) -> divides fdiv bs bt.

(** A computation that leaves [scores.json] alone, however it ends. *)
Definition keeps_scores {A} (m : M A) : Prop :=
  forall w, scores (m w).1 = scores w.

(** A computation that, when it returns, has asked exactly the questions
    [qs], in that order. *)
Definition presents {A} (m : M A) (qs : list question) : Prop :=
  forall w w' a, m w = (w', Ok a) -> presented w' = presented w ++ qs.

(** The prompt of the choice loop and its complaint. *)
Definition choice_prompt : line := Prompt (lit "Your choice (a/b/c/d): ").
Definition please_type : line := Plain (lit "Please type a, b, c, or d.").

(** What [ask_mc_question] prints for one rejected line. *)
Definition reprompts (rejected : list str) : list line :=
  concat (map (fun _ => [choice_prompt; please_type]) rejected).

(** A multiple-choice record that has every key [ask_mc_question] reads and
    whose ["correct_option"] is one of its labels. *)
Definition complete_mc (q : question) : bool :=
  match q_question q, q_options q, q_correct_option q, q_explanation q with
  | Some _, Some options, Some c, Some _ => dict_mem options c
  | _, _, _, _ => false
  end.

(** An open record that has every key [ask_open_question] reads. *)
Definition complete_open (q : question) : bool :=
  match q_answers q, q_explanation q with
  | Some _, Some _ => true
  | _, _ => false
  end.

(** The line [l] answers the question [q] at the first prompt, for a
    runner that reads the type with [q["type"]] ([strict]) or with
    [q.get("type")]. *)
Definition answers (strict : bool) (q : question) (l : str) : bool :=
  match q_type q with
  | Some t =>
      if is_mc t
      then complete_mc q && accepted_choice (default [] (q_options q)) l
      else complete_open q
  | None => negb strict && complete_open q
  end.

(** Two sample sessions: the user answers [sample_mc] wrongly and
    [sample_open] rightly, or the other way round. *)
Definition sample_questions : list question := [sample_mc; sample_open].

Definition session_wrong_first : world :=
  start [lit "a"; lit " Three  TIMES "] Missing.

Definition session_wrong_second : world :=
  start [lit "b"; lit "twice"; lit "three times"]
        (Document (Some sample_history)).

(** ** More of the script: the score summary, the knowledge check, the
    review export and the question limit of the menu *)

(** [str(n)] for a Python int, as an f-string prints it. *)
Definition str_of_int (n : Z) : str := lit (NilZero.string_of_int (Z.to_int n)).

(** [f"  Last score for this set: {last[0]}/{last[1]}"] and
    [f"  Best score for this set:  {best[0]}/{best[1]}"] *)
Definition last_score_line (p : Z * Z) : line :=
  Plain (lit "  Last score for this set: " ++ str_of_int p.1 ++ lit "/" ++ str_of_int p.2).

Definition best_score_line (p : Z * Z) : line :=
  Plain (lit "  Best score for this set:  " ++ str_of_int p.1 ++ lit "/" ++ str_of_int p.2).

(** [best != last] on two (score, total) tuples is [negb (pair_eqb best last)]. *)
Definition pair_eqb (a b : Z * Z) : bool :=
  ((a.1 =? b.1) && (a.2 =? b.2))%Z.

(** [show_scores_summary(sets_data, set_ids, chosen_key)] (lines 97-107);
    [set_ids] is [list(sets_data.keys())], the only use of [sets_data]. *)
Definition show_scores_summary (fdiv : division) (set_ids : list str)
    (chosen_key : str) : M unit :=
  stats <- get_last_and_best fdiv set_ids ;;
  match stats !! chosen_key with
  | None => ret tt                                  (* chosen_key not in stats *)
  | Some st =>
      (match last st with
       | Some l => print (last_score_line l)
       | None => ret tt
       end) ;;
      match best st with
      | Some b =>
          match last st with
          | None => print (best_score_line b)
          | Some l => if pair_eqb b l then ret tt else print (best_score_line b)
          end
      | None => ret tt
      end
  end.

(** The value of [curriculum["check"]]: a dictionary with optional ["title"]
    and ["questions"], or a bare list of questions. *)
Inductive check_data :=
  | CheckDict (title : option str) (questions : option (list question))
  | CheckList (questions : list question).

(** [check_data.get("questions", []) if isinstance(check_data, dict) else
    check_data], where [check_data = curriculum.get("check", {})]; [check]
    is [None] when the curriculum has no ["check"] key. *)
Definition check_questions (check : option check_data) : list question :=
  match check with
  | None => []
  | Some (CheckDict _ questions) => default [] questions
  | Some (CheckList questions) => questions
  end.

(** [check_data.get("title", "Test your understanding") if
    isinstance(check_data, dict) else "Test your understanding"] *)
Definition check_title (check : option check_data) : str :=
  match check with
  | Some (CheckDict (Some title) _) => title
  | _ => lit "Test your understanding"
  end.

(** [for i, q in enumerate(questions, 1)] of [run_check]; [i] is the number
    of the head of [questions]. *)
Fixpoint check_loop (i : nat) (questions : list question) (total score : nat)
  : M nat :=
  match questions with
  | [] => ret score
  | q :: rest =>
      correct <- ask_by_get q i total ;;
      check_loop (S i) rest total (if correct then score + 1 else score)
  end.

(** [run_check(curriculum)] (lines 256-275). *)
Definition run_check (check : option check_data) : M (nat * nat) :=
  let questions := check_questions check in
  match questions with
  | [] => ret (0, 0)                                (* if not questions *)
  | _ =>
      let title := check_title check in
      print (Plain (nl ++ ruler "=")) ;;
      print (Plain (lit "  " ++ title)) ;;
      print (Plain (ruler "=")) ;;
      score <- check_loop 1 questions (length questions) 0 ;;
      ret (score, length questions)
  end.

(** [get_correct_answer_text(q)] (lines 210-214). *)
Definition get_correct_answer_text (q : question) : outcome str :=
  match q_type q with
  | None => Raise KeyError
  | Some t =>
      if is_mc t
      then match q_options q with
           | None => Raise KeyError
           | Some options =>
               match q_correct_option q with
               | None => Raise KeyError
               | Some c => Ok (default [] (dict_get options c))
               end
           end
      else Ok (join (lit " / ") (default [] (q_answers q)))
  end.

(** One line of the review file.  The title line holds a dash outside
    Latin-1 and has a constructor of its own:
    [RTitle t] is [f"Review: Wrong answers (en dash) {t}"] and
    [RGenerated s] is [f"Generated: {s}"]. *)
Inductive review_line :=
  | RText (s : str)
  | RTitle (set_title : str)
  | RGenerated (stamp : str).

(** [datetime.now().strftime('%Y-%m-%d %H:%M')], from the ISO form
    [YYYY-MM-DDTHH:MM:SS...] of the same instant. *)
Definition minute_stamp (iso : str) : str :=
  take 10 iso ++ lit " " ++ take 5 (drop 11 iso).

(** [(q.get("question") or q.get("prompt", "")).strip()] *)
Definition review_text (q : question) : str :=
  strip (match q_question q with
         | Some (c :: s) => c :: s
         | _ => default [] (q_prompt q)
         end).

(** The eight lines that the loop of [export_wrong_answers] appends for one
    wrong question. *)
Definition review_block (q : question) : outcome (list review_line) :=
  match get_correct_answer_text q with
  | Raise e => Raise e
  | Ok answer =>
      match q_explanation q with
      | None => Raise KeyError
      | Some explanation =>
          Ok [ RText (concat (repeat (lit "-") 40));
               RText (match q_question q with
                      | Some _ => lit "Question:"
                      | None => lit "Prompt:"
                      end);
               RText (review_text q);
               RText [];
               RText (lit "Correct answer: " ++ answer);
               RText [];
               RText (lit "Explanation: " ++ explanation);
               RText [] ]
      end
  end.

(** [for i in wrong_indices: q = questions_list[i]; lines.append(...)] *)
Fixpoint review_blocks (questions_list : list question) (wrong_indices : list nat)
  : outcome (list review_line) :=
  match wrong_indices with
  | [] => Ok []
  | i :: rest =>
      match questions_list !! i with
      | None => Raise IndexError
      | Some q =>
          match review_block q with
          | Raise e => Raise e
          | Ok block =>
              match review_blocks questions_list rest with
              | Raise e => Raise e
              | Ok blocks => Ok (block ++ blocks)
              end
          end
      end
  end.

(** The world together with the review file: its lines (the file is their
    join with newlines), or [None] when it does not exist. *)
Record desk := Desk {
  desk_world : world;
  review_file : option (list review_line)
}.

(** [export_wrong_answers(questions_list, wrong_indices, set_title)]
    (lines 217-238); [review_path] is [str(REVIEW_FILE)].  The review file
    is taken to be writable: [open(REVIEW_FILE, "w")] and [f.write] do not
    fail. *)
Definition export_wrong_answers (review_path : str) (questions_list : list question)
    (wrong_indices : list nat) (set_title : str) : desk -> desk * outcome unit :=
  fun d =>
    let '(w1, stamp) := now_isoformat (desk_world d) in
    let header :=
      [ RText (ruler "=");
        RTitle set_title;
        RGenerated (minute_stamp (match stamp with Ok iso => iso | Raise _ => [] end));
        RText (ruler "=");
        RText [] ] in
    match review_blocks questions_list wrong_indices with
    | Raise e => (Desk w1 (review_file d), Raise e)
    | Ok blocks =>
        (* with open(REVIEW_FILE, "w") as f: f.write("\n".join(lines)) *)
        let '(w2, r) := print (Plain (lit "Saved to: " ++ review_path)) w1 in
        (Desk w2 (Some (header ++ blocks)), r)
    end.

(** The [max_questions] that [main_menu] passes to [run_set] (lines 430-437):
    [typed] is the answer to "How many to attempt?" and [int_of] is Python's
    [int] on strings ([None] for [ValueError]). *)
Definition attempt_limit (int_of : str -> option Z) (typed : str)
    (total_available : nat) : option Z :=
  let use_max := strip typed in
  match use_max with
  | [] => None
  | _ =>
      match int_of use_max with
      | Some max_q => Some (Z.max 1 (Z.min max_q (Z.of_nat total_available)))
      | None => Some (Z.of_nat total_available)
      end
  end.

(** ** Vocabulary of the further statements *)

(** Whether the line [l] is a right answer to [q]: the label comparison of
    [ask_mc_question] or the matcher of [ask_open_question]. *)
Definition verdict (q : question) (l : str) : bool :=
  let open := answer_matches (strip l) (default [] (q_answers q)) in
  match q_type q with
  | Some t =>
      if is_mc t then str_eqb (lower (strip l)) (default [] (q_correct_option q))
      else open
  | None => open
  end.

(** The record [q] has every key that asking it reads, for a runner that
    reads the type with [q["type"]] ([strict]) or with [q.get("type")]. *)
Definition complete (strict : bool) (q : question) : bool :=
  match q_type q with
  | Some t => if is_mc t then complete_mc q else complete_open q
  | None => negb strict && complete_open q
  end.


(** An open record without a type, as [q.get("type")] allows. *)
Definition sample_untyped : question :=
  Question None None (Some (lit "I ___ (see) that film twice."))
           None None (Some [lit "have seen"]) (Some (lit "Life experience.")).



(** A sample check and a sample desk. *)
Definition sample_check : option check_data :=
  Some (CheckDict None (Some sample_questions)).

Definition sample_desk : desk :=
  Desk session_wrong_first (Some [RText (lit "an older review")]).
Example normalize_yes_please :
  normalize_answer (lit "  Yes   please") = lit "yes please".
Proof. reflexivity. Qed.

Example collapse_yes_please :
  trim_lower_collapse (lit "  Yes   please") = lit "yes please".
Proof. reflexivity. Qed.

Example matches_three_times :
  answer_matches (lit "Three   Times") [lit "three times"] = true.
Proof. reflexivity. Qed.


(** ** Properties of the text primitives *)

Section TextFacts.

Lemma isspace_lower_char c : isspace (lower_char c) = isspace c.
Proof. destruct c as [[] [] [] [] [] [] [] []]; reflexivity. Qed.

Lemma lower_char_idem c : lower_char (lower_char c) = lower_char c.
Proof. destruct c as [[] [] [] [] [] [] [] []]; reflexivity. Qed.

Lemma lower_idem s : lower (lower s) = lower s.
Proof.
  unfold lower. rewrite map_map. apply map_ext. intros c. apply lower_char_idem.
Qed.

Lemma lower_app a b : lower (a ++ b) = lower a ++ lower b.
Proof. apply map_app. Qed.

(** *** Stripping *)

Lemma lstrip_suffix s : exists ws, s = ws ++ lstrip s /\ Forall (fun c => isspace c = true) ws.
Proof.
  induction s as [|c s IH]; simpl.
  - exists []. split; [reflexivity | constructor].
  - destruct (isspace c) eqn:Hc.
    + destruct IH as (ws & Heq & Hws). exists (c :: ws). split.
      * simpl. f_equal. exact Heq.
      * constructor; assumption.
    + exists []. split; [reflexivity | constructor].
Qed.

Lemma lstrip_head s c r : lstrip s = c :: r -> isspace c = false.
Proof.
  induction s as [|d s IH]; simpl; [discriminate|].
  destruct (isspace d) eqn:Hd; [exact IH|].
  intros [= -> _]. exact Hd.
Qed.

Lemma lstrip_lower s : lstrip (lower s) = lower (lstrip s).
Proof.
  induction s as [|c s IH]; simpl; [reflexivity|].
  rewrite isspace_lower_char. destruct (isspace c); [exact IH | reflexivity].
Qed.

Lemma rstrip_prefix s : exists ws, s = rstrip s ++ ws /\ Forall (fun c => isspace c = true) ws.
Proof.
  unfold rstrip. destruct (lstrip_suffix (rev s)) as (ws & Heq & Hws).
  exists (rev ws). split.
  - rewrite <- rev_app_distr, <- Heq, rev_involutive. reflexivity.
  - apply Forall_rev. exact Hws.
Qed.

Lemma rstrip_last s a c : rstrip s = a ++ [c] -> isspace c = false.
Proof.
  unfold rstrip. intros H. apply (f_equal (@rev ascii)) in H.
  rewrite rev_involutive, rev_app_distr in H. simpl in H.
  eapply lstrip_head. exact H.
Qed.

Lemma rstrip_lower s : rstrip (lower s) = lower (rstrip s).
Proof.
  unfold rstrip, lower. rewrite <- map_rev.
  change (map lower_char (rev s)) with (lower (rev s)).
  rewrite lstrip_lower. unfold lower. rewrite map_rev. reflexivity.
Qed.

Lemma strip_lower s : strip (lower s) = lower (strip s).
Proof. unfold strip. rewrite rstrip_lower, lstrip_lower. reflexivity. Qed.

Lemma strip_no_leading s : no_leading_space (strip s).
Proof. intros c r H. eapply lstrip_head. exact H. Qed.

Lemma strip_no_trailing s : no_trailing_space (strip s).
Proof.
  intros a c H. unfold strip in H.
  destruct (lstrip_suffix (rstrip s)) as (ws & Heq & _).
  rewrite H in Heq. rewrite app_assoc in Heq.
  eapply rstrip_last. exact Heq.
Qed.

Lemma no_leading_lower s : no_leading_space s -> no_leading_space (lower s).
Proof.
  intros H c r Heq. destruct s as [|d s]; [discriminate|].
  simpl in Heq. injection Heq as <- _. rewrite isspace_lower_char.
  eapply H. reflexivity.
Qed.

Lemma no_trailing_lower s : no_trailing_space s -> no_trailing_space (lower s).
Proof.
  intros H a c Heq. unfold lower in Heq.
  apply map_eq_app in Heq. destruct Heq as (a' & l' & -> & _ & Hl).
  destruct l' as [|d [|? ?]]; try discriminate.
  simpl in Hl. injection Hl as <-. rewrite isspace_lower_char.
  eapply H. reflexivity.
Qed.

Lemma no_trailing_tail c s : no_trailing_space (c :: s) -> no_trailing_space s.
Proof. intros H a d ->. apply (H (c :: a) d). reflexivity. Qed.

Lemma no_trailing_space_next c s :
  no_trailing_space (c :: s) -> isspace c = true -> s <> [].
Proof.
  intros H Hc ->. specialize (H [] c eq_refl). congruence.
Qed.


(** *** Splitting *)

Lemma split_from_nil word :
  split_from word [] = match word with [] => [] | _ => [word] end.
Proof. reflexivity. Qed.

Lemma split_from_nonspace w : forall word s,
  Forall (fun c => isspace c = false) w ->
  split_from word (w ++ s) = split_from (word ++ w) s.
Proof.
  induction w as [|c w IH]; intros word s Hw; simpl.
  - rewrite app_nil_r. reflexivity.
  - inversion Hw as [|? ? Hc Hw']; subst. rewrite Hc.
    rewrite IH by assumption. rewrite <- app_assoc. reflexivity.
Qed.

Lemma split_from_allspace ws : forall word,
  Forall (fun c => isspace c = true) ws ->
  split_from word ws = match word with [] => [] | _ => [word] end.
Proof.
  induction ws as [|c ws IH]; intros word Hws; [reflexivity|].
  inversion Hws as [|? ? Hc Hws']; subst. simpl. rewrite Hc.
  destruct word; rewrite IH by assumption; reflexivity.
Qed.

Lemma split_from_trailing a : forall word ws,
  Forall (fun c => isspace c = true) ws ->
  split_from word (a ++ ws) = split_from word a.
Proof.
  induction a as [|c a IH]; intros word ws Hws.
  - simpl. apply split_from_allspace. exact Hws.
  - simpl. destruct (isspace c); [destruct word|]; rewrite IH by assumption; reflexivity.
Qed.

Lemma split_lstrip s : split (lstrip s) = split s.
Proof.
  unfold split. induction s as [|c s IH]; [reflexivity|].
  simpl. destruct (isspace c) eqn:Hc; [exact IH|].
  simpl. rewrite Hc. reflexivity.
Qed.

Lemma split_rstrip s : split (rstrip s) = split s.
Proof.
  destruct (rstrip_prefix s) as (ws & Heq & Hws).
  rewrite Heq at 2. unfold split. rewrite split_from_trailing by assumption.
  reflexivity.
Qed.

Lemma split_strip s : split (strip s) = split s.
Proof. unfold strip. rewrite split_lstrip. apply split_rstrip. Qed.

Lemma split_from_lower s : forall word,
  split_from (lower word) (lower s) = map lower (split_from word s).
Proof.
  induction s as [|c s IH]; intros word.
  - destruct word; reflexivity.
  - simpl. rewrite isspace_lower_char. destruct (isspace c).
    + destruct word as [|d word]; simpl.
      * apply (IH []).
      * f_equal. apply (IH []).
    + rewrite <- IH. rewrite lower_app. reflexivity.
Qed.

Lemma split_lower s : split (lower s) = map lower (split s).
Proof. apply (split_from_lower s []). Qed.

Lemma split_from_words s : forall word,
  Forall (fun c => isspace c = false) word ->
  Forall is_word (split_from word s).
Proof.
  induction s as [|c s IH]; intros word Hword.
  - destruct word as [|d word]; constructor; [|constructor].
    split; [discriminate | exact Hword].
  - simpl. destruct (isspace c) eqn:Hc.
    + destruct word as [|d word]; [apply IH; constructor|].
      constructor; [split; [discriminate | exact Hword] | apply IH; constructor].
    + apply IH. apply Forall_app. split; [exact Hword|]. constructor; [exact Hc | constructor].
Qed.

Lemma split_words s : Forall is_word (split s).
Proof. apply split_from_words. constructor. Qed.

Lemma split_from_nonempty s : forall word, word <> [] -> split_from word s <> [].
Proof.
  induction s as [|c s IH]; intros word Hne.
  - destruct word; [congruence | discriminate].
  - simpl. destruct (isspace c).
    + destruct word; [congruence | discriminate].
    + apply IH. destruct word; discriminate.
Qed.

(** Splitting undoes joining with one space. *)
Lemma split_join ws : Forall is_word ws -> split (join (lit " ") ws) = ws.
Proof.
  induction ws as [|w rest IH]; intros Hws; [reflexivity|].
  inversion Hws as [|? ? [Hne Hw] Hrest]; subst.
  unfold split. destruct rest as [|w' r].
  - pose proof (split_from_nonspace w [] [] Hw) as H.
    rewrite app_nil_r in H. simpl in H. simpl join. rewrite H.
    destruct w; [congruence | reflexivity].
  - change (join (lit " ") (w :: w' :: r))
      with (w ++ lit " " ++ join (lit " ") (w' :: r)).
    rewrite split_from_nonspace by assumption.
    change (lit " " ++ join (lit " ") (w' :: r))
      with (" "%char :: join (lit " ") (w' :: r)).
    simpl app at 1. 
    change (split_from w (" "%char :: join (lit " ") (w' :: r)))
      with (match w with [] => split_from [] (join (lit " ") (w' :: r))
                       | _ => w :: split_from [] (join (lit " ") (w' :: r)) end).
    destruct w; [congruence|]. f_equal. apply IH. exact Hrest.
Qed.

Lemma lower_join ws : lower (join (lit " ") ws) = join (lit " ") (map lower ws).
Proof.
  induction ws as [|w rest IH]; [reflexivity|].
  destruct rest as [|w' r]; [reflexivity|].
  change (join (lit " ") (w :: w' :: r))
    with (w ++ lit " " ++ join (lit " ") (w' :: r)).
  rewrite !lower_app, IH. reflexivity.
Qed.

(** *** The normal form *)

Lemma normalize_answer_split s :
  normalize_answer s = join (lit " ") (split (lower s)).
Proof.
  unfold normalize_answer. rewrite <- strip_lower, split_strip. reflexivity.
Qed.

(** C9.  Normalising is idempotent: a normal form is its own normal form. *)
Theorem C9_normalize_answer_idempotent (s : str) :
  normalize_answer (normalize_answer s) = normalize_answer s.
Proof.
  rewrite (normalize_answer_split (normalize_answer s)).
  rewrite (normalize_answer_split s).
  rewrite lower_join, <- split_lower, lower_idem.
  rewrite split_join by apply split_words. reflexivity.
Qed.

Lemma collapse_space_space c d t :
  isspace c = true -> isspace d = true ->
  collapse_spaces (c :: d :: t) = collapse_spaces (d :: t).
Proof.
  intros Hc Hd. change (collapse_spaces (c :: d :: t))
    with (if isspace c then (if isspace d then collapse_spaces (d :: t)
                             else lit " " ++ collapse_spaces (d :: t))
          else c :: collapse_spaces (d :: t)).
  rewrite Hc, Hd. reflexivity.
Qed.

Lemma collapse_space_word c d t :
  isspace c = true -> isspace d = false ->
  collapse_spaces (c :: d :: t) = lit " " ++ d :: collapse_spaces t.
Proof.
  intros Hc Hd. change (collapse_spaces (c :: d :: t))
    with (if isspace c then (if isspace d then collapse_spaces (d :: t)
                             else lit " " ++ collapse_spaces (d :: t))
          else c :: collapse_spaces (d :: t)).
  rewrite Hc, Hd. simpl. rewrite Hd. reflexivity.
Qed.

Lemma collapse_word d t :
  isspace d = false -> collapse_spaces (d :: t) = d :: collapse_spaces t.
Proof. intros Hd. simpl. rewrite Hd. reflexivity. Qed.

(** Joining the words of a trimmed string with one space is the same as
    collapsing its runs of whitespace. *)
Lemma join_split_from_collapse t :
  no_trailing_space t ->
  (forall word, word <> [] ->
     join (lit " ") (split_from word t) = word ++ collapse_spaces t) /\
  (t <> [] -> forall w c, isspace c = true ->
     join (lit " ") (w :: split_from [] t) = w ++ collapse_spaces (c :: t)).
Proof.
  induction t as [|d t IH]; intros Ht.
  - split; [|congruence]. intros word Hne. simpl.
    destruct word; [congruence|]. rewrite app_nil_r. reflexivity.
  - specialize (IH (no_trailing_tail _ _ Ht)). destruct IH as [IH1 IH2].
    destruct (isspace d) eqn:Hd.
    + pose proof (no_trailing_space_next _ _ Ht Hd) as Hne.
      split.
      * intros word Hword. simpl split_from. rewrite Hd.
        destruct word as [|x word]; [congruence|].
        apply (IH2 Hne (x :: word) d Hd).
      * intros _ w c Hc. simpl split_from. rewrite Hd.
        rewrite (IH2 Hne w d Hd).
        rewrite (collapse_space_space c d t Hc Hd). reflexivity.
    + split.
      * intros word Hword. simpl split_from. rewrite Hd.
        rewrite IH1 by (destruct word; discriminate).
        rewrite (collapse_word d t Hd), <- app_assoc. reflexivity.
      * intros _ w c Hc. simpl split_from. rewrite Hd.
        pose proof (split_from_nonempty t [d] ltac:(discriminate)) as Hne.
        pose proof (IH1 [d] ltac:(discriminate)) as Hj.
        simpl app in Hj.
        destruct (split_from [d] t) as [|x l] eqn:Hs; [congruence|].
        change (join (lit " ") (w :: x :: l))
          with (w ++ lit " " ++ join (lit " ") (x :: l)).
        rewrite Hj. rewrite (collapse_space_word c d t Hc Hd). reflexivity.
Qed.

Lemma join_split_collapse t :
  no_leading_space t -> no_trailing_space t ->
  join (lit " ") (split t) = collapse_spaces t.
Proof.
  intros Hl Ht. destruct t as [|c t]; [reflexivity|].
  pose proof (Hl c t eq_refl) as Hc.
  unfold split. simpl split_from. rewrite Hc.
  destruct (join_split_from_collapse t (no_trailing_tail _ _ Ht)) as [H1 _].
  rewrite H1 by discriminate. rewrite (collapse_word c t Hc). reflexivity.
Qed.

(** The code's normal form is "trim, lower-case, collapse". *)
Lemma normalize_answer_collapse s :
  normalize_answer s = trim_lower_collapse s.
Proof.
  unfold normalize_answer, trim_lower_collapse.
  apply join_split_collapse.
  - apply no_leading_lower, strip_no_leading.
  - apply no_trailing_lower, strip_no_trailing.
Qed.

Lemma str_eqb_eq x y : str_eqb x y = true <-> x = y.
Proof. unfold str_eqb. apply bool_decide_eq_true. Qed.

Lemma answer_matches_loop_spec user accepted_answers :
  answer_matches_loop user accepted_answers = true <->
  exists accepted, In accepted accepted_answers /\ user = normalize_answer accepted.
Proof.
  induction accepted_answers as [|a rest IH]; simpl.
  - split; [discriminate | intros (? & [] & _)].
  - destruct (str_eqb user (normalize_answer a)) eqn:He.
    + split; [|reflexivity]. intros _. exists a. split; [left; reflexivity|].
      apply str_eqb_eq. exact He.
    + rewrite IH. split.
      * intros (x & Hin & Hx). exists x. split; [right|]; assumption.
      * intros (x & [<-|Hin] & Hx).
        -- apply str_eqb_eq in Hx. congruence.
        -- exists x. split; assumption.
Qed.

(** C1.  [answer_matches u A] is true exactly when the normal form of [u]
    is the normal form of some entry of [A]; the normal form is "trim,
    lower-case, one space for every run of whitespace"; and
    [answer_matches("  Yes   please", ["yes please"])] is true.  Nothing but
    equality of normal forms makes an answer match. *)
Theorem C1_answer_matches_exact :
  (forall (u : str) (A : list str),
     answer_matches u A = true <->
     exists a, In a A /\ normalize_answer u = normalize_answer a)
  /\ (forall s : str, normalize_answer s = trim_lower_collapse s)
  /\ answer_matches (lit "  Yes   please") [lit "yes please"] = true.
Proof.
  split; [|split].
  - intros u A. unfold answer_matches. apply answer_matches_loop_spec.
  - apply normalize_answer_collapse.
  - reflexivity.
Qed.

Example near_miss_does_not_match :
  answer_matches (lit "yes pleas") [lit "yes please"; lit "yes, please"] = false.
Proof. reflexivity. Qed.

Example tabs_and_capitals_match :
  answer_matches ("009"%char :: lit "HAVE  been" ++ ["010"%char])
                 [lit "has been"; lit "have been"] = true.
Proof. reflexivity. Qed.

End TextFacts.

(** ** Properties of the score history *)

Section ScoreFacts.

Variable fdiv : division.

Lemma Qgtb_true x y : Qgtb x y = true <-> (y < x)%Q.
Proof.
  unfold Qgtb. rewrite negb_true_iff. split.
  - intros H. apply Qnot_le_lt. intros Hle. apply Qle_bool_iff in Hle. congruence.
  - intros H. destruct (Qle_bool x y) eqn:E; [|reflexivity].
    apply Qle_bool_iff in E. exfalso. apply (Qlt_not_le _ _ H E).
Qed.

Lemma Qgtb_false x y : Qgtb x y = false <-> (x <= y)%Q.
Proof.
  unfold Qgtb. rewrite negb_false_iff. apply Qle_bool_iff.
Qed.

Lemma truediv_Ok s t x : truediv fdiv s t = Ok x -> divides fdiv s t /\ x = fdiv s t.
Proof.
  unfold truediv, divides. destruct (Z.eqb_spec t 0); [discriminate|].
  destruct (too_large fdiv s t); [discriminate|].
  intros [= <-]. auto.
Qed.

Lemma truediv_divides s t : divides fdiv s t -> truediv fdiv s t = Ok (fdiv s t).
Proof.
  intros [Ht Hfit]. unfold truediv. rewrite Hfit.
  destruct (Z.eqb_spec t 0); [contradiction | reflexivity].
Qed.


Lemma improves_Ok s t bs bt b :
  improves fdiv s t (Some (bs, bt)) = Ok b ->
  divides fdiv s t /\ divides fdiv bs bt /\ b = Qgtb (fdiv s t) (fdiv bs bt).
Proof.
  unfold improves.
  destruct (truediv fdiv s t) as [x|] eqn:Hx; [|discriminate].
  destruct (truediv fdiv bs bt) as [y|] eqn:Hy; [|discriminate].
  apply truediv_Ok in Hx. apply truediv_Ok in Hy.
  destruct Hx as [? ->]. destruct Hy as [? ->].
  intros [= <-]. auto.
Qed.

(** [record_entry] changes the value under the record's key as
    [update_stats] says and nothing else. *)
Lemma record_entry_Ok result e result' :
  record_entry fdiv result e = Ok result' ->
  (exists st, update_stats fdiv (default (Stats None None) (result !! set_id e)) e = Ok st
              /\ result' !! set_id e = Some st)
  /\ (forall k, k <> set_id e -> result' !! k = result !! k).
Proof.
  unfold record_entry, update_stats.
  set (r1 := match result !! set_id e with
             | Some _ => result
             | None => <[set_id e := Stats None None]> result
             end).
  assert (H1 : default (Stats None None) (r1 !! set_id e)
               = default (Stats None None) (result !! set_id e)).
  { unfold r1. destruct (result !! set_id e) eqn:E.
    - rewrite E. reflexivity.
    - rewrite lookup_insert_eq. reflexivity. }
  assert (H2 : forall k, k <> set_id e -> r1 !! k = result !! k).
  { intros k Hk. unfold r1. destruct (result !! set_id e); [reflexivity|].
    rewrite lookup_insert_ne by congruence. reflexivity. }
  rewrite H1.
  destruct (improves fdiv (score e) (total e)
              (best (default (Stats None None) (result !! set_id e)))) as [[|]|];
    [| |discriminate]; intros [= <-]; split.
  - eexists. split; [reflexivity|]. rewrite lookup_insert_eq. reflexivity.
  - intros k Hk. rewrite !lookup_insert_ne by congruence. apply H2, Hk.
  - eexists. split; [reflexivity|]. rewrite lookup_insert_eq. reflexivity.
  - intros k Hk. rewrite !lookup_insert_ne by congruence. apply H2, Hk.
Qed.

Lemma record_entry_Raise result e x :
  record_entry fdiv result e = Raise x ->
  update_stats fdiv (default (Stats None None) (result !! set_id e)) e = Raise x.
Proof.
  unfold record_entry, update_stats.
  set (r1 := match result !! set_id e with
             | Some _ => result
             | None => <[set_id e := Stats None None]> result
             end).
  assert (H1 : default (Stats None None) (r1 !! set_id e)
               = default (Stats None None) (result !! set_id e)).
  { unfold r1. destruct (result !! set_id e) eqn:E.
    - rewrite E. reflexivity.
    - rewrite lookup_insert_eq. reflexivity. }
  rewrite H1.
  destruct (improves fdiv (score e) (total e)
              (best (default (Stats None None) (result !! set_id e)))) as [[|]|];
    [discriminate|discriminate|]. intros [= <-]. reflexivity.
Qed.

Lemma entries_for_app k h1 h2 :
  entries_for k (h1 ++ h2) = entries_for k h1 ++ entries_for k h2.
Proof. apply filter_app. Qed.

Lemma entries_for_one_eq e : entries_for (set_id e) [e] = [e].
Proof.
  unfold entries_for. rewrite filter_cons_True by reflexivity. reflexivity.
Qed.

Lemma entries_for_one_ne k e : k <> set_id e -> entries_for k [e] = [].
Proof.
  intros H. unfold entries_for. rewrite filter_cons_False by congruence. reflexivity.
Qed.

Lemma init_result_best set_ids k st :
  init_result set_ids !! k = Some st -> best st = None.
Proof.
  unfold init_result.
  assert (G : forall (l : list str) (m : gmap str stats),
            (forall st, m !! k = Some st -> best st = None) ->
            forall st, foldl (fun result sid => <[sid := Stats None None]> result) m l !! k = Some st ->
                       best st = None).
  { induction l as [|sid l IH]; intros m Hm st'; simpl; [apply Hm|].
    apply IH. intros st''. destruct (decide (sid = k)) as [->|Hne].
    - rewrite lookup_insert_eq. intros [= <-]. reflexivity.
    - rewrite lookup_insert_ne by assumption. apply Hm. }
  apply G. intros st'. rewrite lookup_empty. discriminate.
Qed.


(** One more record of the same key keeps [first_maximum]. *)
Lemma update_stats_first_maximum es old e st :
  first_maximum fdiv es (best old) ->
  update_stats fdiv old e = Ok st ->
  first_maximum fdiv (es ++ [e]) (best st).
Proof.
  intros Hmax Hup. unfold update_stats in Hup.
  destruct es as [|e0 es0].
  - simpl in Hmax. rewrite Hmax in Hup. simpl in Hup. injection Hup as <-.
    simpl. exists 0, e. split; [reflexivity|]. split; [reflexivity|].
    split; [|split].
    + intros e' He'. apply list_elem_of_singleton in He'. subst. apply Qle_refl.
    + intros j e' Hj. lia.
    + simpl. lia.
  - set (es := e0 :: es0) in *.
    assert (Hes : es ++ [e] = e0 :: (es0 ++ [e])) by reflexivity.
    unfold first_maximum in Hmax. fold es in Hmax.
    destruct Hmax as (i & ei & Hi & Hb & Hle & Hlt & Hnz).
    rewrite Hb in Hup.
    destruct (improves fdiv (score e) (total e) (Some (score ei, total ei)))
      as [b|] eqn:Himp; [|discriminate].
    apply improves_Ok in Himp. destruct Himp as (Ht & Hbt & ->).
    assert (Hlen : i < length es) by (eapply lookup_lt_Some; exact Hi).
    assert (Htot : forall e', e' ∈ es ++ [e] -> divides fdiv (score e') (total e')).
    { intros e' He'. apply elem_of_app in He'. destruct He' as [He'|He'].
      - destruct (decide (2 <= length es)) as [H2|H2]; [apply Hnz; assumption|].
        assert (i = 0) by lia. subst i.
        destruct es0; [|simpl in H2; lia].
        apply list_elem_of_singleton in He'. subst e'.
        simpl in Hi. injection Hi as <-. exact Hbt.
      - apply list_elem_of_singleton in He'. subst. exact Ht. }
    rewrite Hes. unfold first_maximum. rewrite <- Hes.
    destruct (Qgtb (fdiv (score e) (total e)) (fdiv (score ei) (total ei))) eqn:Hgt;
      injection Hup as <-; simpl best.
    + apply Qgtb_true in Hgt.
      exists (length es), e. split; [|split; [reflexivity|split; [|split]]].
      * rewrite lookup_app_r by lia. rewrite Nat.sub_diag. reflexivity.
      * intros e' He'. apply elem_of_app in He'. destruct He' as [He'|He'].
        -- apply Qlt_le_weak. eapply Qle_lt_trans; [apply Hle, He' | exact Hgt].
        -- apply list_elem_of_singleton in He'. subst. apply Qle_refl.
      * intros j e' Hj Hje. rewrite lookup_app_l in Hje by assumption.
        eapply Qle_lt_trans; [|exact Hgt].
        apply Hle. eapply list_elem_of_lookup_2. exact Hje.
      * intros _. exact Htot.
    + apply Qgtb_false in Hgt.
      exists i, ei. split; [|split; [reflexivity|split; [|split]]].
      * rewrite lookup_app_l by assumption. exact Hi.
      * intros e' He'. apply elem_of_app in He'. destruct He' as [He'|He'].
        -- apply Hle, He'.
        -- apply list_elem_of_singleton in He'. subst. exact Hgt.
      * intros j e' Hj Hje. rewrite lookup_app_l in Hje by lia.
        eapply Hlt; eassumption.
      * intros _. exact Htot.
Qed.


Lemma scanned_init set_ids : scanned fdiv (init_result set_ids) [].
Proof.
  intros k. split; [|intros H; exfalso; apply H; reflexivity].
  simpl. unfold stats_of. destruct (init_result set_ids !! k) as [st|] eqn:E.
  - simpl. eapply init_result_best. exact E.
  - reflexivity.
Qed.

Lemma scanned_step result seen e result' :
  scanned fdiv result seen ->
  record_entry fdiv result e = Ok result' ->
  scanned fdiv result' (seen ++ [e]).
Proof.
  intros Hinv Hrec. apply record_entry_Ok in Hrec.
  destruct Hrec as [(st & Hup & Hst) Hother].
  intros k. rewrite entries_for_app. destruct (decide (k = set_id e)) as [->|Hne].
  - rewrite entries_for_one_eq. split.
    + unfold stats_of at 1. rewrite Hst. simpl.
      eapply update_stats_first_maximum; [|exact Hup]. apply Hinv.
    + intros _. rewrite Hst. eexists. reflexivity.
  - rewrite entries_for_one_ne by assumption. rewrite app_nil_r.
    unfold stats_of. rewrite Hother by assumption. apply Hinv.
Qed.

Lemma scan_history_scanned history : forall result seen result',
  scanned fdiv result seen ->
  scan_history fdiv result history = Ok result' ->
  scanned fdiv result' (seen ++ history).
Proof.
  induction history as [|e rest IH]; intros result seen result' Hinv Hscan.
  - simpl in Hscan. injection Hscan as <-. rewrite app_nil_r. exact Hinv.
  - simpl in Hscan.
    destruct (record_entry fdiv result e) as [r1|] eqn:Hrec; [|discriminate].
    replace (seen ++ e :: rest) with ((seen ++ [e]) ++ rest)
      by (rewrite <- app_assoc; reflexivity).
    eapply IH; [|exact Hscan]. eapply scanned_step; eassumption.
Qed.

(** When every record can be divided, no division fails. *)

Lemma update_stats_divides old e :
  divides fdiv (score e) (total e) ->
  (forall bs bt, best old = Some (bs, bt) -> divides fdiv bs bt) ->
  exists st, update_stats fdiv old e = Ok st
             /\ (forall bs bt, best st = Some (bs, bt) -> divides fdiv bs bt).
Proof.
  intros Ht Hold. unfold update_stats, improves.
  destruct (best old) as [[bs bt]|] eqn:Hb.
  - rewrite (truediv_divides _ _ Ht).
    rewrite (truediv_divides bs bt (Hold bs bt eq_refl)).
    destruct (Qgtb _ _); eexists; (split; [reflexivity|]); simpl.
    + intros ? ? [= <- <-]. exact Ht.
    + exact Hold.
  - eexists. split; [reflexivity|]. simpl. intros ? ? [= <- <-]. exact Ht.
Qed.

Lemma record_entry_divides result e :
  divides fdiv (score e) (total e) -> dividable_bests fdiv result ->
  exists result', record_entry fdiv result e = Ok result'
                  /\ dividable_bests fdiv result'.
Proof.
  intros Ht Hnz.
  destruct (update_stats_divides (stats_of result (set_id e)) e Ht) as (st & Hup & Hst).
  { unfold stats_of. intros bs bt. destruct (result !! set_id e) as [st|] eqn:E; simpl.
    - apply (Hnz _ _ _ _ E).
    - discriminate. }
  destruct (record_entry fdiv result e) as [r'|x] eqn:Hrec.
  - exists r'. split; [reflexivity|].
    apply record_entry_Ok in Hrec. destruct Hrec as [(st' & Hup' & Hst') Hother].
    unfold stats_of in Hup. rewrite Hup in Hup'. injection Hup' as <-.
    intros k st0 bs bt Hk Hb. destruct (decide (k = set_id e)) as [->|Hne].
    + rewrite Hst' in Hk. injection Hk as <-. eapply Hst. exact Hb.
    + rewrite Hother in Hk by assumption. eapply Hnz; eassumption.
  - apply record_entry_Raise in Hrec. unfold stats_of in Hup. congruence.
Qed.

Lemma scan_history_divides history : forall result,
  Forall (fun e => divides fdiv (score e) (total e)) history ->
  dividable_bests fdiv result ->
  exists result', scan_history fdiv result history = Ok result'.
Proof.
  induction history as [|e rest IH]; intros result Hall Hnz.
  - eexists. reflexivity.
  - inversion Hall as [|? ? Ht Hrest]; subst.
    destruct (record_entry_divides result e Ht Hnz) as (r1 & Hrec & Hnz1).
    simpl. rewrite Hrec. apply IH; assumption.
Qed.

Lemma init_result_divides set_ids : dividable_bests fdiv (init_result set_ids).
Proof.
  intros k st bs bt Hk Hb. apply init_result_best in Hk. congruence.
Qed.

Lemma get_last_and_best_run set_ids w :
  get_last_and_best fdiv set_ids w =
  match get_history (scores w) with
  | Ok history => (w, scan_history fdiv (init_result set_ids) history)
  | Raise x => (w, Raise x)
  end.
Proof.
  unfold get_last_and_best, bind, load_scores, lift.
  destruct (get_history (scores w)); reflexivity.
Qed.


(** C2 (as amended).  Whenever [get_last_and_best] returns, then for every
    key [k] that has a record in the history, the "best" stored under [k] is
    the (score, total) of a record [e] of [k]; the ratio of [e], as the
    script computes it (the float quotient, whatever its rounding), is
    greater than or equal to the computed ratio of every record of [k]; and
    every record of [k] stored before [e] has a strictly smaller computed
    ratio, so that among records of equal maximal ratio the earliest is
    kept.  (With two records or more under [k], every record has been
    divided: no total is zero and no quotient is too large.)  And
    [get_last_and_best] does return when every record can be divided. *)
Theorem C2_best_is_first_maximum (set_ids : list str) (w : world)
    (history : list entry) :
  snd (load_scores w) = Ok history ->
  (forall result,
     snd (get_last_and_best fdiv set_ids w) = Ok result ->
     forall k, entries_for k history <> [] ->
       exists i e st,
         entries_for k history !! i = Some e
         /\ result !! k = Some st
         /\ best st = Some (score e, total e)
         /\ (forall e', e' ∈ entries_for k history ->
                        (ratio fdiv e' <= ratio fdiv e)%Q)
         /\ (forall j e', j < i -> entries_for k history !! j = Some e' ->
                          (ratio fdiv e' < ratio fdiv e)%Q)
         /\ (2 <= length (entries_for k history) ->
             forall e', e' ∈ entries_for k history ->
                        divides fdiv (score e') (total e')))
  /\ (Forall (fun e => divides fdiv (score e) (total e)) history ->
      exists result, snd (get_last_and_best fdiv set_ids w) = Ok result).
Proof.
  intros Hload. unfold load_scores in Hload. simpl in Hload.
  rewrite get_last_and_best_run, Hload. simpl. split.
  - intros result Hscan k Hk.
    pose proof (scan_history_scanned history _ [] result
                  (scanned_init set_ids) Hscan) as Hinv.
    simpl in Hinv. destruct (Hinv k) as [Hmax Hsome].
    destruct (Hsome Hk) as [st Hst].
    unfold stats_of in Hmax. rewrite Hst in Hmax. simpl in Hmax.
    unfold first_maximum in Hmax.
    destruct (entries_for k history) as [|e0 es0] eqn:Hes; [congruence|].
    destruct Hmax as (i & e & Hi & Hb & Hle & Hlt & Hnz).
    exists i, e, st. auto 10.
  - intros Hall. apply scan_history_divides; [exact Hall|].
    apply init_result_divides.
Qed.

(** C3 (the code does not do this).  With two records under one key whose
    totals are zero, the comparison divides by zero: [get_last_and_best]
    raises [ZeroDivisionError]. *)
Theorem C3_zero_total_raises :
  snd (get_last_and_best fdiv [lit "s1"]
         (start [] (Document (Some empty_set_history))))
  = Raise ZeroDivisionError.
Proof. vm_compute. reflexivity. Qed.

(** The only guard is [best is None]: a later record with total zero always
    raises. *)
Lemma record_entry_zero_total result e st b :
  result !! set_id e = Some st -> best st = Some b -> total e = 0%Z ->
  record_entry fdiv result e = Raise ZeroDivisionError.
Proof.
  intros Hst Hb Ht. unfold record_entry. rewrite Hst. simpl. rewrite Hst. simpl.
  rewrite Hb. destruct b as [bs bt]. unfold improves, truediv. rewrite Ht.
  reflexivity.
Qed.

End ScoreFacts.

Lemma C2_witness_sample_history :
  exists result i e st,
    snd (get_last_and_best exact_div [lit "s1"]
           (start [] (Document (Some sample_history)))) = Ok result
    /\ entries_for (lit "s1") sample_history !! i = Some e
    /\ result !! lit "s1" = Some st
    /\ best st = Some (score e, total e)
    /\ (forall e', e' ∈ entries_for (lit "s1") sample_history ->
                   (ratio exact_div e' <= ratio exact_div e)%Q).
Proof.
  destruct (C2_best_is_first_maximum exact_div [lit "s1"]
              (start [] (Document (Some sample_history))) sample_history eq_refl)
    as [Hbest Hruns].
  destruct Hruns as [result Hresult].
  { repeat constructor; discriminate. }
  destruct (Hbest result Hresult (lit "s1")) as (i & e & st & H1 & H2 & H3 & H4 & _).
  { vm_compute. discriminate. }
  exists result, i, e, st. auto.
Defined.

(** The claim as it is stated, over the ratios as numbers, fails.  Python
    rounds [(2^53 + 1) / 2^53] to [1.0], which is not greater than [1 / 1]:
    the best stays [(1, 1)], though the second record has the greater
    ratio. *)
Lemma C2_counterexample_rounded_quotient :
  match snd (get_last_and_best float_div [lit "s1"]
               (start [] (Document (Some rounding_history)))) with
  | Ok result => best <$> result !! lit "s1"
  | Raise _ => None
  end = Some (Some (1, 1)%Z)
  /\ exists e, e ∈ entries_for (lit "s1") rounding_history
               /\ (inject_Z 1 / inject_Z 1 < inject_Z (score e) / inject_Z (total e))%Q.
Proof.
  split; [vm_compute; reflexivity|].
  exists (Entry (lit "s1") (lit "Set 1") (2 ^ 53 + 1) (2 ^ 53)
                (lit "2024-01-02T10:00:00")).
  split; [vm_compute; right; left | vm_compute; reflexivity].
Qed.

Example best_keeps_first_of_equal_ratios :
  match snd (get_last_and_best exact_div [lit "s1"]
               (start [] (Document (Some sample_history)))) with
  | Ok result => (best <$> result !! lit "s1", last <$> result !! lit "s1")
  | Raise _ => (None, None)
  end = (Some (Some (2, 2)%Z), Some (Some (4, 4)%Z)).
Proof. vm_compute. reflexivity. Qed.

(** ** Loading and saving *)

Lemma load_scores_world w : fst (load_scores w) = w.
Proof. reflexivity. Qed.

(** What the [except] clause of [load_scores] takes care of: a file that is
    missing, cannot be read or is not JSON gives the empty history; a JSON
    object gives the list under its "history" key, and the empty history
    when it has no such key.  The world is left as it was. *)
Lemma load_scores_handled (w : world) (history : list entry) :
  load_scores (with_scores Missing w) = (with_scores Missing w, Ok [])
  /\ load_scores (with_scores Unreadable w) = (with_scores Unreadable w, Ok [])
  /\ load_scores (with_scores BadSyntax w) = (with_scores BadSyntax w, Ok [])
  /\ load_scores (with_scores (Document None) w)
     = (with_scores (Document None) w, Ok [])
  /\ load_scores (with_scores (Document (Some history)) w)
     = (with_scores (Document (Some history)) w, Ok history).
Proof. repeat split. Qed.

(** C8 (the code does not do this).  A [scores.json] that holds JSON which
    is not an object, such as [[]], or bytes that are not UTF-8, is not
    read as the empty history: [load_scores] raises [AttributeError] or
    [UnicodeDecodeError], which its [except] clause does not name.  So do
    [save_score] and [get_last_and_best], which call it, and the file is
    left as it is. *)
Theorem C8_load_scores_raises (w : world) :
  load_scores (with_scores NotAnObject w)
  = (with_scores NotAnObject w, Raise AttributeError)
  /\ load_scores (with_scores Undecodable w)
     = (with_scores Undecodable w, Raise UnicodeDecodeError)
  /\ (forall sid title s t,
        save_score sid title s t (with_scores NotAnObject w)
        = (with_scores NotAnObject w, Raise AttributeError))
  /\ (forall fdiv set_ids,
        get_last_and_best fdiv set_ids (with_scores NotAnObject w)
        = (with_scores NotAnObject w, Raise AttributeError))
  /\ ~ (forall w', exists history, snd (load_scores w') = Ok history).
Proof.
  split; [reflexivity|]. split; [reflexivity|]. split; [reflexivity|].
  split; [reflexivity|]. intros H.
  destruct (H (with_scores NotAnObject w)) as [history Hh]. discriminate Hh.
Qed.

(** C6.  When the history loads as [history] and the file can be written,
    [save_score] returns, and the history that then loads is [history]
    followed by the one new record; the records before it are the same, in
    the same order. *)
Theorem C6_save_score_appends (sid title : str) (s t : Z) (w : world)
    (history : list entry) :
  snd (load_scores w) = Ok history ->
  scores_writable w = true ->
  exists w',
    save_score sid title s t w = (w', Ok tt)
    /\ snd (load_scores w')
       = Ok (history ++ [Entry sid title s t (clock w (ticks w))])
    /\ scores w' = Document (Some (history ++ [Entry sid title s t (clock w (ticks w))])).
Proof.
  intros Hload Hw. unfold load_scores in Hload. simpl in Hload.
  unfold save_score, bind, load_scores, now_isoformat, write_scores.
  rewrite Hload. simpl. rewrite Hw. eexists. split; [reflexivity|].
  split; reflexivity.
Qed.

Lemma C6_witness_second_save :
  exists w',
    save_score (lit "s1") (lit "Set 1") 1 1
      (start [] (Document (Some sample_history))) = (w', Ok tt)
    /\ snd (load_scores w')
       = Ok (sample_history
             ++ [Entry (lit "s1") (lit "Set 1") 1 1 (lit "2024-01-01T00:00:00")]).
Proof.
  destruct (C6_save_score_appends (lit "s1") (lit "Set 1") 1 1
              (start [] (Document (Some sample_history))) sample_history
              eq_refl eq_refl) as (w' & Hsave & Hload & _).
  exists w'. split; assumption.
Defined.

(** ** Properties of the presenter and the runners *)

Section MonadFacts.

Context {A B : Type}.

Lemma bind_Ok (m : M A) (k : A -> M B) w w' b :
  bind m k w = (w', Ok b) ->
  exists w1 a, m w = (w1, Ok a) /\ k a w1 = (w', Ok b).
Proof.
  unfold bind. destruct (m w) as [w1 [a|e]]; [|discriminate].
  intros H. exists w1, a. split; [reflexivity | exact H].
Qed.

Lemma bind_run (m : M A) (k : A -> M B) w w1 a :
  m w = (w1, Ok a) -> bind m k w = k a w1.
Proof. intros H. unfold bind. rewrite H. reflexivity. Qed.

Lemma keeps_scores_bind (m : M A) (k : A -> M B) :
  keeps_scores m -> (forall a, keeps_scores (k a)) -> keeps_scores (bind m k).
Proof.
  intros Hm Hk w. unfold bind. specialize (Hm w).
  destruct (m w) as [w1 [a|e]]; simpl in *.
  - rewrite Hk. exact Hm.
  - exact Hm.
Qed.

Lemma presents_bind (m : M A) (k : A -> M B) qs1 qs2 :
  presents m qs1 -> (forall a, presents (k a) qs2) ->
  presents (bind m k) (qs1 ++ qs2).
Proof.
  intros Hm Hk w w' b H. apply bind_Ok in H. destruct H as (w1 & a & H1 & H2).
  rewrite (Hk a _ _ _ H2), (Hm _ _ _ H1), app_assoc. reflexivity.
Qed.

Lemma presents_bind_nil (m : M A) (k : A -> M B) qs :
  presents m [] -> (forall a, presents (k a) qs) -> presents (bind m k) qs.
Proof. intros Hm Hk. apply (presents_bind m k [] qs Hm Hk). Qed.

Lemma presents_bind_first (m : M A) (k : A -> M B) qs :
  presents m qs -> (forall a, presents (k a) []) -> presents (bind m k) qs.
Proof.
  intros Hm Hk. rewrite <- (app_nil_r qs). apply (presents_bind m k qs [] Hm Hk).
Qed.

End MonadFacts.

Section Frames.

Lemma keeps_scores_ret {A} (a : A) : keeps_scores (ret a).
Proof. intros w. reflexivity. Qed.

Lemma keeps_scores_raise {A} e : keeps_scores (@raise A e).
Proof. intros w. reflexivity. Qed.

Lemma keeps_scores_item {A} (o : option A) : keeps_scores (item o).
Proof. destruct o; intros w; reflexivity. Qed.

Lemma keeps_scores_print l : keeps_scores (print l).
Proof. intros w. reflexivity. Qed.

Lemma keeps_scores_present q : keeps_scores (present q).
Proof. intros w. reflexivity. Qed.

Lemma keeps_scores_input p : keeps_scores (input p).
Proof. intros w. unfold input. destruct (stdin w); reflexivity. Qed.

Lemma keeps_scores_choose options : keeps_scores (input_choice options).
Proof.
  intros w. unfold input_choice.
  destruct (read_choice options (stdin w)) as [[out unread] r]. reflexivity.
Qed.

Lemma keeps_scores_print_options options : keeps_scores (print_options options).
Proof.
  induction options as [|[label option] rest IH]; simpl.
  - apply keeps_scores_ret.
  - apply keeps_scores_bind; [apply keeps_scores_print | intros _; exact IH].
Qed.

Lemma presents_ret {A} (a : A) : presents (ret a) [].
Proof. intros w w' x [= <- _]. rewrite app_nil_r. reflexivity. Qed.

Lemma presents_item {A} (o : option A) : presents (item o) [].
Proof.
  destruct o; intros w w' x; simpl; [|discriminate].
  intros [= <- _]. rewrite app_nil_r. reflexivity.
Qed.

Lemma presents_print l : presents (print l) [].
Proof. intros w w' x [= <- _]. simpl. rewrite app_nil_r. reflexivity. Qed.

Lemma presents_present q : presents (present q) [q].
Proof. intros w w' x [= <- _]. reflexivity. Qed.

Lemma presents_input p : presents (input p) [].
Proof.
  intros w w' x. unfold input. destruct (stdin w); [discriminate|].
  intros [= <- _]. simpl. rewrite app_nil_r. reflexivity.
Qed.

Lemma presents_choose options : presents (input_choice options) [].
Proof.
  intros w w' x. unfold input_choice.
  destruct (read_choice options (stdin w)) as [[out unread] r].
  intros [= <- _]. simpl. rewrite app_nil_r. reflexivity.
Qed.

Lemma presents_print_options options : presents (print_options options) [].
Proof.
  induction options as [|[label option] rest IH]; simpl.
  - apply presents_ret.
  - apply (presents_bind _ _ [] []); [apply presents_print | intros _; exact IH].
Qed.

End Frames.

Create HintDb frames.
#[local] Hint Resolve keeps_scores_ret keeps_scores_raise keeps_scores_item
  keeps_scores_print keeps_scores_present keeps_scores_input
  keeps_scores_choose keeps_scores_print_options : frames.

Ltac frame_scores :=
  repeat first
    [ apply keeps_scores_bind; [|intros ?]
    | solve [auto with frames]
    | match goal with |- keeps_scores (if ?b then _ else _) => destruct b end
    | match goal with |- keeps_scores (match ?o with _ => _ end) => destruct o end ].

#[local] Hint Resolve presents_ret presents_item presents_print presents_input
  presents_choose presents_print_options : frames.

Ltac frame_presents :=
  repeat first
    [ apply presents_bind_nil; [|intros ?]
    | solve [auto with frames]
    | match goal with |- presents (if ?b then _ else _) _ => destruct b end
    | match goal with |- presents (match ?o with _ => _ end) _ => destruct o end ].

Section AskFacts.

Lemma presents_ask_open q num total : presents (ask_open_question q num total) [q].
Proof.
  unfold ask_open_question.
  apply presents_bind_first; [apply presents_present | intros _]. frame_presents.
Qed.

Lemma presents_ask_mc q num total : presents (ask_mc_question q num total) [q].
Proof.
  unfold ask_mc_question.
  apply presents_bind_first; [apply presents_present | intros _]. frame_presents.
Qed.

Lemma presents_ask_by_item q num total : presents (ask_by_item q num total) [q].
Proof.
  unfold ask_by_item. apply presents_bind_nil; [apply presents_item|].
  intros t. destruct (is_mc t); [apply presents_ask_mc | apply presents_ask_open].
Qed.

Lemma presents_ask_by_get q num total : presents (ask_by_get q num total) [q].
Proof.
  unfold ask_by_get. destruct (q_type q) as [t|]; [destruct (is_mc t)|];
    auto using presents_ask_mc, presents_ask_open.
Qed.

Lemma keeps_scores_ask_open q num total : keeps_scores (ask_open_question q num total).
Proof. unfold ask_open_question. frame_scores. Qed.

Lemma keeps_scores_ask_mc q num total : keeps_scores (ask_mc_question q num total).
Proof. unfold ask_mc_question. frame_scores. Qed.

Lemma keeps_scores_ask_by_item q num total : keeps_scores (ask_by_item q num total).
Proof.
  unfold ask_by_item. apply keeps_scores_bind; [apply keeps_scores_item|].
  intros t. destruct (is_mc t); [apply keeps_scores_ask_mc | apply keeps_scores_ask_open].
Qed.

Lemma keeps_scores_ask_by_get q num total : keeps_scores (ask_by_get q num total).
Proof.
  unfold ask_by_get. destruct (q_type q) as [t|]; [destruct (is_mc t)|];
    auto using keeps_scores_ask_mc, keeps_scores_ask_open.
Qed.

(** *** What one question does on given input *)

Lemma print_options_run options w :
  print_options options w =
  (World (stdin w) (stdout w ++ map (fun lo => OptionLine lo.1 lo.2) options)
         (scores w) (scores_writable w) (rng w) (draws w) (clock w) (ticks w)
         (presented w) (torn w), Ok tt).
Proof.
  revert w. induction options as [|[label option] rest IH]; intros w.
  - simpl. rewrite app_nil_r. destruct w; reflexivity.
  - simpl. unfold bind. simpl. rewrite IH. simpl. rewrite <- app_assoc. reflexivity.
Qed.

Lemma read_choice_rejected options rejected u rest :
  Forall (fun l => accepted_choice options l = false) rejected ->
  accepted_choice options u = true ->
  read_choice options (rejected ++ u :: rest)
  = (reprompts rejected ++ [choice_prompt], rest, Ok (lower (strip u))).
Proof.
  intros Hrej Hu. induction Hrej as [|l rejected Hl Hrej IH].
  - simpl. unfold accepted_choice in Hu. rewrite Hu. reflexivity.
  - simpl. unfold accepted_choice in Hl. rewrite Hl. rewrite IH. reflexivity.
Qed.

Lemma ask_mc_question_run q stem options correct_option correct_text explanation
    num total w rejected u rest :
  q_question q = Some stem ->
  q_options q = Some options ->
  q_correct_option q = Some correct_option ->
  dict_get options correct_option = Some correct_text ->
  q_explanation q = Some explanation ->
  stdin w = rejected ++ u :: rest ->
  Forall (fun l => accepted_choice options l = false) rejected ->
  accepted_choice options u = true ->
  ask_mc_question q num total w =
  (World rest
     (stdout w ++ [QuestionHeader num total; Plain stem]
        ++ map (fun lo => OptionLine lo.1 lo.2) options
        ++ reprompts rejected
        ++ [choice_prompt;
            if str_eqb (lower (strip u)) correct_option then CorrectMark
            else IncorrectChoice correct_option correct_text;
            Explanation explanation])
     (scores w) (scores_writable w) (rng w) (draws w) (clock w) (ticks w)
     (presented w ++ [q]) (torn w),
   Ok (str_eqb (lower (strip u)) correct_option)).
Proof.
  intros Hq Ho Hc Ht He Hin Hrej Hu.
  unfold ask_mc_question. rewrite Hq, Ho, Hc, He.
  unfold bind at 1. simpl.
  unfold bind at 1. simpl.
  unfold bind at 1. simpl.
  unfold bind at 1. simpl.
  unfold bind at 1. simpl.
  unfold bind at 1. rewrite print_options_run. simpl.
  unfold bind at 1. unfold input_choice. simpl. rewrite Hin.
  rewrite (read_choice_rejected _ _ _ _ Hrej Hu).
  unfold bind at 1. simpl.
  destruct (str_eqb (lower (strip u)) correct_option) eqn:Heq.
  - unfold bind. simpl. repeat (rewrite <- app_assoc; simpl). reflexivity.
  - rewrite Ht. unfold bind. simpl. repeat (rewrite <- app_assoc; simpl). reflexivity.
Qed.

Lemma ask_open_question_run q answers explanation num total w l rest :
  q_answers q = Some answers ->
  q_explanation q = Some explanation ->
  stdin w = l :: rest ->
  ask_open_question q num total w =
  (World rest
     (stdout w ++ [QuestionHeader num total; Plain (open_text q);
                   Prompt (lit "Your answer: ")]
        ++ (if answer_matches (strip l) answers then [CorrectMark]
            else [IncorrectMark; CorrectAnswers (join (lit " / ") answers)])
        ++ [Explanation explanation])
     (scores w) (scores_writable w) (rng w) (draws w) (clock w) (ticks w)
     (presented w ++ [q]) (torn w),
   Ok (answer_matches (strip l) answers)).
Proof.
  intros Ha He Hin.
  unfold ask_open_question. rewrite Ha, He.
  unfold bind at 1. simpl.
  unfold bind at 1. simpl.
  unfold bind at 1. simpl.
  unfold bind at 1. unfold input. simpl. rewrite Hin.
  unfold bind at 1. simpl.
  destruct (answer_matches (strip l) answers);
    unfold bind; simpl; repeat (rewrite <- app_assoc; simpl); reflexivity.
Qed.

End AskFacts.

(** *** The loops and the shuffle *)

Section LoopFacts.

Variable ask : question -> nat -> nat -> M bool.
Hypothesis ask_presents : forall q num total, presents (ask q num total) [q].

Lemma quiz_loop_counts qs : forall i total score wrong w w' score' wrong',
  quiz_loop ask i qs total score wrong w = (w', Ok (score', wrong')) ->
  presented w' = presented w ++ qs
  /\ exists added,
       wrong' = wrong ++ added
       /\ score' + length added = score + length qs
       /\ StronglySorted lt added
       /\ Forall (fun j => i <= j < i + length qs) added.
Proof.
  induction qs as [|q rest IH]; intros i total score wrong w w' score' wrong' H.
  - simpl in H. injection H as <- <- <-. split; [by rewrite app_nil_r|].
    exists []. rewrite app_nil_r. repeat split; [constructor | constructor].
  - simpl in H. apply bind_Ok in H. destruct H as (w1 & correct & Hask & H).
    apply ask_presents in Hask. destruct correct.
    + apply IH in H. destruct H as (Hp & added & -> & Hs & Hsorted & Hall).
      split; [rewrite Hp, Hask, <- app_assoc; reflexivity|].
      exists added. repeat split; [simpl; lia | exact Hsorted |].
      eapply Forall_impl; [exact Hall|]. simpl. intros j Hj. lia.
    + apply IH in H. destruct H as (Hp & added & -> & Hs & Hsorted & Hall).
      split; [rewrite Hp, Hask, <- app_assoc; reflexivity|].
      exists (i :: added). repeat split.
      * rewrite <- app_assoc. reflexivity.
      * simpl. lia.
      * apply StronglySorted_cons. split; [|exact Hsorted].
        eapply Forall_impl; [exact Hall|]. simpl. intros j Hj. lia.
      * constructor; [simpl; lia|].
        eapply Forall_impl; [exact Hall|]. simpl. intros j Hj. lia.
Qed.

Hypothesis ask_keeps_scores : forall q num total, keeps_scores (ask q num total).

Lemma keeps_scores_quiz_loop qs : forall i total score wrong,
  keeps_scores (quiz_loop ask i qs total score wrong).
Proof.
  induction qs as [|q rest IH]; intros i total score wrong; simpl.
  - apply keeps_scores_ret.
  - apply keeps_scores_bind; [apply ask_keeps_scores|].
    intros []; apply IH.
Qed.

End LoopFacts.

Section ShuffleFacts.

Context {A : Type}.

Lemma swap_length (x : list A) i j : length (swap x i j) = length x.
Proof.
  unfold swap. destruct (x !! i), (x !! j); try reflexivity.
  rewrite !length_insert. reflexivity.
Qed.

Lemma swap_lookup (x : list A) i j k :
  i < length x -> j < length x ->
  swap x i j !! k
  = x !! (if decide (k = i) then j else if decide (k = j) then i else k).
Proof.
  intros Hi Hj. unfold swap.
  destruct (x !! i) as [a|] eqn:Ei; [|apply lookup_ge_None in Ei; lia].
  destruct (x !! j) as [b|] eqn:Ej; [|apply lookup_ge_None in Ej; lia].
  destruct (decide (k = j)) as [->|Hkj].
  - rewrite list_lookup_insert_eq by (rewrite length_insert; lia).
    destruct (decide (j = i)) as [->|]; congruence.
  - rewrite list_lookup_insert_ne by congruence.
    destruct (decide (k = i)) as [->|Hki].
    + rewrite list_lookup_insert_eq by lia. congruence.
    + rewrite list_lookup_insert_ne by congruence. reflexivity.
Qed.

Lemma swap_Permutation (x : list A) i j : swap x i j ≡ₚ x.
Proof.
  destruct (decide (i < length x /\ j < length x)) as [[Hi Hj]|Hn].
  - apply Permutation_inj. split; [apply swap_length|].
    exists (fun k => if decide (k = i) then j else if decide (k = j) then i else k).
    split.
    + intros k1 k2. repeat case_decide; lia.
    + intros k. apply swap_lookup; assumption.
  - unfold swap.
    destruct (x !! i) as [a|] eqn:Ei; [|reflexivity].
    destruct (x !! j) as [b|] eqn:Ej; [|reflexivity].
    apply lookup_lt_Some in Ei. apply lookup_lt_Some in Ej. tauto.
Qed.

(** [random.shuffle] always returns; it permutes its argument and touches
    nothing but the random source. *)
Lemma shuffle_from_run i : forall (x : list A) w,
  exists w' y,
    shuffle_from i x w = (w', Ok y)
    /\ y ≡ₚ x
    /\ stdin w' = stdin w /\ stdout w' = stdout w /\ scores w' = scores w
    /\ presented w' = presented w.
Proof.
  induction i as [|i IH]; intros x w.
  - exists w, x. repeat split; reflexivity.
  - simpl. unfold bind, randbelow. simpl.
    match goal with |- context [shuffle_from i ?x' ?w'] =>
      destruct (IH x' w') as (w2 & y & Hrun & Hperm & H1 & H2 & H3 & H4) end.
    exists w2, y. rewrite Hrun. repeat split; try assumption.
    rewrite Hperm. apply swap_Permutation.
Qed.

End ShuffleFacts.

(** *** The runners *)

Section RunFacts.

Lemma slice_to_take {A} (x : list A) (n : Z) :
  (0 <= n)%Z -> slice_to x n = take (Z.to_nat n) x.
Proof.
  intros H. unfold slice_to. destruct (Z.leb_spec 0 n); [reflexivity | lia].
Qed.

Lemma random_shuffle_run (questions : list question) w :
  exists w1 ordering,
    random_shuffle questions w = (w1, Ok ordering)
    /\ ordering ≡ₚ questions
    /\ stdin w1 = stdin w /\ stdout w1 = stdout w /\ scores w1 = scores w
    /\ presented w1 = presented w.
Proof. apply shuffle_from_run. Qed.

Lemma keeps_scores_random_shuffle (questions : list question) :
  keeps_scores (random_shuffle questions).
Proof.
  intros w. destruct (random_shuffle_run questions w)
    as (w1 & ordering & Hrun & _ & _ & _ & Hs & _).
  rewrite Hrun. exact Hs.
Qed.

Lemma presents_random_shuffle (questions : list question) :
  presents (random_shuffle questions) [].
Proof.
  intros w w' a H. destruct (random_shuffle_run questions w)
    as (w1 & ordering & Hrun & _ & _ & _ & _ & Hp).
  rewrite Hrun in H. injection H as <- _. rewrite app_nil_r. exact Hp.
Qed.

(** The list that [run_set] runs, given the ordering after the optional
    shuffle. *)
Lemma run_set_inv questions title shuffle max_questions w w' score total wrong used :
  run_set questions title shuffle max_questions w
    = (w', Ok (score, total, wrong, used)) ->
  exists ordering,
    (if shuffle then exists w1, random_shuffle questions w = (w1, Ok ordering)
     else ordering = questions)
    /\ ordering ≡ₚ questions
    /\ used = match max_questions with
              | Some n => if (n <? Z.of_nat (length ordering))%Z
                          then slice_to ordering n else ordering
              | None => ordering
              end
    /\ total = length used
    /\ presented w' = presented w ++ used
    /\ score + length wrong = total
    /\ StronglySorted lt wrong
    /\ Forall (fun i => i < total) wrong.
Proof.
  unfold run_set. intros H.
  apply bind_Ok in H. destruct H as (w1 & ordering & Hsh & H).
  apply bind_Ok in H. destruct H as (w2 & [] & Hp1 & H).
  apply bind_Ok in H. destruct H as (w3 & [] & Hp2 & H).
  apply bind_Ok in H. destruct H as (w4 & [] & Hp3 & H).
  apply bind_Ok in H. destruct H as (w5 & [score0 wrong0] & Hloop & H).
  injection H as <- <- <- <- <-.
  apply (quiz_loop_counts _ presents_ask_by_item) in Hloop.
  destruct Hloop as (Hpres & added & -> & Hsum & Hsorted & Hall).
  apply presents_print in Hp1, Hp2, Hp3. rewrite !app_nil_r in *.
  exists ordering.
  assert (Hord : (if shuffle
                  then exists w0, random_shuffle questions w = (w0, Ok ordering)
                  else ordering = questions)
                 /\ ordering ≡ₚ questions /\ presented w1 = presented w).
  { destruct shuffle.
    - destruct (random_shuffle_run questions w)
        as (w0 & y & Hrun & Hperm & _ & _ & _ & Hp).
      rewrite Hrun in Hsh. injection Hsh as <- <-.
      split; [exists w0; exact Hrun|]. split; assumption.
    - injection Hsh as <- <-. repeat split; reflexivity. }
  destruct Hord as (Hsrc & Hperm & Hp0).
  split; [exact Hsrc|]. split; [exact Hperm|].
  split; [reflexivity|]. split; [reflexivity|].
  split; [simpl; congruence|].
  simpl in *. split; [lia|]. split; [exact Hsorted|].
  eapply Forall_impl; [exact Hall|]. simpl. intros j Hj. lia.
Qed.

Lemma run_practice_section_inv section_title questions w w' score total wrong used :
  run_practice_section section_title questions w
    = (w', Ok (score, total, wrong, used)) ->
  used = questions
  /\ total = length used
  /\ presented w' = presented w ++ used
  /\ score + length wrong = total
  /\ StronglySorted lt wrong
  /\ Forall (fun i => i < total) wrong.
Proof.
  unfold run_practice_section. intros H.
  apply bind_Ok in H. destruct H as (w2 & [] & Hp1 & H).
  apply bind_Ok in H. destruct H as (w3 & [] & Hp2 & H).
  apply bind_Ok in H. destruct H as (w4 & [] & Hp3 & H).
  apply bind_Ok in H. destruct H as (w5 & [score0 wrong0] & Hloop & H).
  injection H as <- <- <- <- <-.
  apply (quiz_loop_counts _ presents_ask_by_get) in Hloop.
  destruct Hloop as (Hpres & added & -> & Hsum & Hsorted & Hall).
  apply presents_print in Hp1, Hp2, Hp3. rewrite !app_nil_r in *.
  split; [reflexivity|]. split; [reflexivity|].
  split; [simpl; congruence|].
  simpl in *. split; [lia|]. split; [exact Hsorted|].
  eapply Forall_impl; [exact Hall|]. simpl. intros j Hj. lia.
Qed.

End RunFacts.

(** *** When the runners return, and the retry *)

Section Returns.

Lemma dict_mem_get options key :
  dict_mem options key = true -> exists text, dict_get options key = Some text.
Proof.
  unfold dict_mem. destruct (dict_get options key) as [text|]; [|discriminate].
  intros _. exists text. reflexivity.
Qed.

Lemma ask_mc_question_returns q l num total w rest :
  complete_mc q = true ->
  accepted_choice (default [] (q_options q)) l = true ->
  stdin w = l :: rest ->
  exists w' b, ask_mc_question q num total w = (w', Ok b) /\ stdin w' = rest.
Proof.
  unfold complete_mc. intros Hq Hl Hin.
  destruct (q_question q) as [stem|] eqn:E1; [|discriminate].
  destruct (q_options q) as [options|] eqn:E2; [|discriminate].
  destruct (q_correct_option q) as [c|] eqn:E3; [|discriminate].
  destruct (q_explanation q) as [ex|] eqn:E4; [|discriminate].
  apply dict_mem_get in Hq. destruct Hq as [text Ht]. simpl in Hl.
  eexists _, _. split.
  - apply (ask_mc_question_run q stem options c text ex num total w [] l rest);
      auto.
  - reflexivity.
Qed.

Lemma ask_open_question_returns q l num total w rest :
  complete_open q = true ->
  stdin w = l :: rest ->
  exists w' b, ask_open_question q num total w = (w', Ok b) /\ stdin w' = rest.
Proof.
  unfold complete_open. intros Hq Hin.
  destruct (q_answers q) as [a|] eqn:E1; [|discriminate].
  destruct (q_explanation q) as [ex|] eqn:E2; [|discriminate].
  eexists _, _. split.
  - apply (ask_open_question_run q a ex num total w l rest); auto.
  - reflexivity.
Qed.

Lemma ask_by_item_returns q l num total w rest :
  answers true q l = true ->
  stdin w = l :: rest ->
  exists w' b, ask_by_item q num total w = (w', Ok b) /\ stdin w' = rest.
Proof.
  unfold answers, ask_by_item. intros Hq Hin.
  destruct (q_type q) as [t|]; [|discriminate]. simpl. unfold bind. simpl.
  destruct (is_mc t).
  - apply andb_true_iff in Hq. destruct Hq.
    apply (ask_mc_question_returns q l); assumption.
  - apply (ask_open_question_returns q l); assumption.
Qed.

Lemma ask_by_get_returns q l num total w rest :
  answers false q l = true ->
  stdin w = l :: rest ->
  exists w' b, ask_by_get q num total w = (w', Ok b) /\ stdin w' = rest.
Proof.
  unfold answers, ask_by_get. intros Hq Hin.
  destruct (q_type q) as [t|]; [destruct (is_mc t)|].
  - apply andb_true_iff in Hq. destruct Hq.
    apply (ask_mc_question_returns q l); assumption.
  - apply (ask_open_question_returns q l); assumption.
  - apply (ask_open_question_returns q l); assumption.
Qed.

Variable ask : question -> nat -> nat -> M bool.
Variable ok : question -> str -> bool.
Hypothesis ask_returns : forall q l num total w rest,
  ok q l = true -> stdin w = l :: rest ->
  exists w' b, ask q num total w = (w', Ok b) /\ stdin w' = rest.

(** With one good line for every question, the loop returns and has read
    exactly those lines. *)
Lemma quiz_loop_returns qs : forall lines,
  Forall2 (fun q l => ok q l = true) qs lines ->
  forall i total score wrong w rest,
    stdin w = lines ++ rest ->
    exists w' r,
      quiz_loop ask i qs total score wrong w = (w', Ok r) /\ stdin w' = rest.
Proof.
  induction qs as [|q qs IH]; intros lines Hall i total score wrong w rest Hin.
  - inversion Hall; subst. simpl in *. eexists _, _. split; [reflexivity | exact Hin].
  - inversion Hall as [|? l ? lines' Hq Hrest]; subst. simpl in Hin.
    destruct (ask_returns q l (i + 1) total w (lines' ++ rest) Hq Hin)
      as (w1 & b & Hask & Hin1).
    simpl. rewrite (bind_run _ _ _ _ _ Hask).
    destruct b; eapply IH; eassumption.
Qed.

End Returns.

Section RetryFacts.

Lemma pick_inv questions_list wrong_indices : forall w w' to_retry,
  pick questions_list wrong_indices w = (w', Ok to_retry) ->
  w' = w /\ Forall2 (fun i q => questions_list !! i = Some q) wrong_indices to_retry.
Proof.
  induction wrong_indices as [|i rest IH]; intros w w' to_retry H.
  - simpl in H. injection H as <- <-. split; [reflexivity | constructor].
  - simpl in H. apply bind_Ok in H. destruct H as (w1 & q & Hq & H).
    apply bind_Ok in H. destruct H as (w2 & qs & Hqs & H).
    injection H as <- <-.
    destruct (questions_list !! i) as [q'|] eqn:E; [|discriminate].
    injection Hq as <- <-. apply IH in Hqs. destruct Hqs as [-> Hqs].
    split; [reflexivity|]. constructor; assumption.
Qed.

Lemma keeps_scores_pick questions_list wrong_indices :
  keeps_scores (pick questions_list wrong_indices).
Proof.
  induction wrong_indices as [|i rest IH]; simpl.
  - apply keeps_scores_ret.
  - apply keeps_scores_bind.
    + destruct (questions_list !! i); [apply keeps_scores_ret | apply keeps_scores_raise].
    + intros q. apply keeps_scores_bind; [exact IH | intros qs; apply keeps_scores_ret].
Qed.

Lemma keeps_scores_retry_loop to_retry : forall i total,
  keeps_scores (retry_loop i to_retry total).
Proof.
  induction to_retry as [|q rest IH]; intros i total; simpl.
  - apply keeps_scores_ret.
  - apply keeps_scores_bind; [apply keeps_scores_ask_by_item | intros _; apply IH].
Qed.

Lemma presents_retry_loop to_retry : forall i total,
  presents (retry_loop i to_retry total) to_retry.
Proof.
  induction to_retry as [|q rest IH]; intros i total; simpl.
  - apply presents_ret.
  - apply (presents_bind _ _ [q] rest); [apply presents_ask_by_item | intros _; apply IH].
Qed.

Lemma keeps_scores_retry_wrong questions_list wrong_indices title :
  keeps_scores (retry_wrong questions_list wrong_indices title).
Proof.
  unfold retry_wrong. destruct wrong_indices as [|i rest]; [apply keeps_scores_ret|].
  apply keeps_scores_bind; [apply keeps_scores_pick | intros to_retry].
  repeat (apply keeps_scores_bind; [apply keeps_scores_print | intros _]).
  apply keeps_scores_bind; [apply keeps_scores_retry_loop | intros _].
  apply keeps_scores_print.
Qed.

Lemma retry_wrong_inv questions_list wrong_indices title w w' :
  retry_wrong questions_list wrong_indices title w = (w', Ok tt) ->
  exists to_retry,
    Forall2 (fun i q => questions_list !! i = Some q) wrong_indices to_retry
    /\ presented w' = presented w ++ to_retry.
Proof.
  unfold retry_wrong. destruct wrong_indices as [|i0 rest0] eqn:Ew.
  - intros [= <-]. exists []. split; [constructor | by rewrite app_nil_r].
  - rewrite <- Ew. clear Ew. intros H.
    apply bind_Ok in H. destruct H as (w1 & to_retry & Hpick & H).
    apply pick_inv in Hpick. destruct Hpick as [-> Hpick].
    apply bind_Ok in H. destruct H as (w2 & [] & Hp1 & H).
    apply bind_Ok in H. destruct H as (w3 & [] & Hp2 & H).
    apply bind_Ok in H. destruct H as (w4 & [] & Hp3 & H).
    apply bind_Ok in H. destruct H as (w5 & [] & Hloop & H).
    apply presents_print in Hp1, Hp2, Hp3, H.
    apply presents_retry_loop in Hloop. rewrite !app_nil_r in *.
    exists to_retry. split; [exact Hpick | congruence].
Qed.

(** Picking at strictly increasing positions gives a subsequence. *)
Lemma pick_sublist {A} (l : list A) : forall (idx : list nat) (qs : list A),
  StronglySorted lt idx ->
  Forall2 (fun i q => l !! i = Some q) idx qs ->
  sublist qs l.
Proof.
  induction l as [|x l IH]; intros idx qs Hsorted Hpick.
  - destruct Hpick as [|i q idx qs Hq _]; [constructor | discriminate].
  - assert (Hshift : forall (js : list nat) (ps : list A),
              Forall (lt 0) js -> StronglySorted lt js ->
              Forall2 (fun i q => (x :: l) !! i = Some q) js ps ->
              sublist ps l).
    { intros js ps Hpos Hs Hp. apply (IH (map pred js)).
      - clear Hp. induction Hs as [|j js Hs IHs Hj]; [constructor|].
        inversion Hpos; subst. simpl. constructor; [apply IHs; assumption|].
        apply Forall_fmap. eapply Forall_impl.
        + apply Forall_and. split; [exact Hj | eassumption].
        + simpl. intros k [? ?]. lia.
      - revert Hpos. clear Hs. induction Hp as [|j p js ps Hj Hp IHp]; intros Hpos.
        + constructor.
        + inversion Hpos; subst. simpl. constructor; [|apply IHp; assumption].
          destruct j; [lia|]. exact Hj. }
    destruct Hpick as [|i q idx qs Hq Hrest]; [apply sublist_nil_l|].
    apply StronglySorted_cons in Hsorted. destruct Hsorted as [Hlt Hs].
    destruct i as [|i].
    + simpl in Hq. injection Hq as <-. apply sublist_skip.
      apply (Hshift idx qs); [|exact Hs | exact Hrest].
      eapply Forall_impl; [exact Hlt|]. simpl. intros. lia.
    + apply sublist_cons.
      apply (Hshift (S i :: idx) (q :: qs)).
      * constructor; [lia|]. eapply Forall_impl; [exact Hlt|]. simpl. intros. lia.
      * apply StronglySorted_cons. split; assumption.
      * constructor; assumption.
Qed.

End RetryFacts.

(** ** The runner, the retry and the multiple-choice presenter *)

(** C10.  Whenever [run_set] returns [(score, total, wrong_indices, qs)],
    [score + len(wrong_indices) = total], the score is at most the total,
    [wrong_indices] is strictly increasing and every index in it is below
    [total]; [total] is the number of questions run, and those are the
    questions that were asked, each once.  The same holds for
    [run_practice_section]. *)
Theorem C10_runner_counts :
  (forall questions title shuffle max_questions w w' score total wrong used,
     run_set questions title shuffle max_questions w
       = (w', Ok (score, total, wrong, used)) ->
     score + length wrong = total
     /\ score <= total
     /\ StronglySorted lt wrong
     /\ Forall (fun i => i < total) wrong
     /\ total = length used
     /\ presented w' = presented w ++ used)
  /\ (forall section_title questions w w' score total wrong used,
        run_practice_section section_title questions w
          = (w', Ok (score, total, wrong, used)) ->
        score + length wrong = total
        /\ score <= total
        /\ StronglySorted lt wrong
        /\ Forall (fun i => i < total) wrong
        /\ total = length used
        /\ presented w' = presented w ++ used).
Proof.
  split.
  - intros questions title shuffle max_questions w w' score total wrong used H.
    apply run_set_inv in H.
    destruct H as (ordering & _ & _ & _ & Ht & Hp & Hsum & Hs & Hall).
    repeat split; try assumption. lia.
  - intros section_title questions w w' score total wrong used H.
    apply run_practice_section_inv in H.
    destruct H as (_ & Ht & Hp & Hsum & Hs & Hall).
    repeat split; try assumption. lia.
Qed.

Lemma C10_witness_two_questions :
  exists w',
    run_set sample_questions (lit "Set 1") false None session_wrong_first
      = (w', Ok (1, 2, [0], sample_questions))
    /\ 1 + length [0] = 2
    /\ StronglySorted lt [0]
    /\ presented w' = presented session_wrong_first ++ sample_questions.
Proof.
  assert (Hrun : run_set sample_questions (lit "Set 1") false None session_wrong_first
                 = ((run_set sample_questions (lit "Set 1") false None
                       session_wrong_first).1,
                    Ok (1, 2, [0], sample_questions)))
    by (vm_compute; reflexivity).
  eexists. split; [exact Hrun|].
  destruct (proj1 C10_runner_counts sample_questions (lit "Set 1") false None
              session_wrong_first _ 1 2 [0] sample_questions Hrun)
    as (Hsum & _ & Hsorted & _ & _ & Hp).
  split; [exact Hsum|]. split; [exact Hsorted | exact Hp].
Defined.

(** C4.  Whenever [run_set] returns, the questions it has asked are the
    list [qs] it returns and [total] is their number.  With
    [max_questions = N] and [0 <= N < len(questions)], [qs] is the first [N]
    questions of the ordering (the list itself, or the permutation that
    [random.shuffle] made of it) and [total = N]; with [max_questions] absent
    or at least [len(questions)], [qs] is the whole ordering and
    [total = len(questions)].  And [run_set] does return when the user types
    one good line for each of the [N] questions. *)
Theorem C4_run_set_max_questions (questions : list question) (title : str)
    (shuffle : bool) (w : world) :
  (forall max_questions w' score total wrong used,
     run_set questions title shuffle max_questions w
       = (w', Ok (score, total, wrong, used)) ->
     exists ordering,
       (if shuffle
        then exists w1, random_shuffle questions w = (w1, Ok ordering)
        else ordering = questions)
       /\ ordering ≡ₚ questions
       /\ presented w' = presented w ++ used
       /\ total = length used
       /\ (forall N, max_questions = Some N ->
                     (0 <= N < Z.of_nat (length questions))%Z ->
                     used = take (Z.to_nat N) ordering
                     /\ Z.of_nat total = N
                     /\ Z.of_nat (length used) = N)
       /\ (max_questions = None
           \/ (exists N, max_questions = Some N
                         /\ (Z.of_nat (length questions) <= N)%Z) ->
           used = ordering /\ total = length questions))
  /\ (forall N lines rest,
        (0 <= N < Z.of_nat (length questions))%Z ->
        stdin w = lines ++ rest ->
        Forall2 (fun q l => answers true q l = true)
                (take (Z.to_nat N) questions) lines ->
        exists w' score wrong,
          run_set questions title false (Some N) w
            = (w', Ok (score, Z.to_nat N, wrong, take (Z.to_nat N) questions))
          /\ stdin w' = rest).
Proof.
  split.
  - intros max_questions w' score total wrong used H.
    apply run_set_inv in H.
    destruct H as (ordering & Hsrc & Hperm & Hused & Ht & Hp & _).
    exists ordering. split; [exact Hsrc|]. split; [exact Hperm|].
    split; [exact Hp|]. split; [exact Ht|].
    pose proof (Permutation_length Hperm) as Hlen.
    split.
    + intros N -> HN. rewrite <- Hlen in HN.
      destruct (Z.ltb_spec N (Z.of_nat (length ordering))); [|lia].
      rewrite slice_to_take in Hused by lia. subst used.
      split; [reflexivity|]. subst total.
      rewrite length_take_le by lia. lia.
    + intros [->|(N & -> & HN)]; [subst; auto|].
      rewrite <- Hlen in HN.
      destruct (Z.ltb_spec N (Z.of_nat (length ordering))); [lia|].
      subst. auto.
  - intros N lines rest HN Hin Hlines.
    unfold run_set.
    rewrite (bind_run (ret questions) _ w w questions eq_refl).
    destruct (Z.ltb_spec N (Z.of_nat (length questions))); [|lia].
    rewrite slice_to_take by lia.
    erewrite bind_run by reflexivity.
    erewrite bind_run by reflexivity.
    erewrite bind_run by reflexivity.
    match goal with |- context [bind (quiz_loop ?a ?i ?qs ?t ?s ?wr) _ ?w0] =>
      destruct (quiz_loop_returns a (answers true) ask_by_item_returns
                  qs lines Hlines i t s wr w0 rest Hin)
        as (w' & [score wrong] & Hloop & Hrest)
    end.
    exists w', score, wrong. rewrite (bind_run _ _ _ _ _ Hloop). unfold ret. simpl.
    rewrite length_take_le by lia. split; [reflexivity | exact Hrest].
Qed.

Lemma C4_witness_first_of_two :
  exists w' score wrong,
    run_set sample_questions (lit "Set 1") false (Some 1%Z)
      (start [lit "b"; lit "unread"] Missing)
      = (w', Ok (score, 1, wrong, [sample_mc]))
    /\ stdin w' = [lit "unread"]
    /\ presented w' = [sample_mc].
Proof.
  destruct (C4_run_set_max_questions sample_questions (lit "Set 1") false
              (start [lit "b"; lit "unread"] Missing))
    as [Hshape Hreturns].
  destruct (Hreturns 1%Z [lit "b"] [lit "unread"]) as (w' & score & wrong & Hrun & Hrest).
  { simpl. lia. }
  { reflexivity. }
  { repeat constructor. }
  exists w', score, wrong. split; [exact Hrun|]. split; [exact Hrest|].
  destruct (Hshape (Some 1%Z) w' score 1 wrong [sample_mc] Hrun)
    as (ordering & _ & _ & Hp & _).
  exact Hp.
Defined.

Example run_set_negative_max :
  snd (run_set [sample_open; sample_open; sample_open] (lit "Set 1") false
         (Some (-1)%Z) (start [lit "x"; lit "y"] Missing))
  = Ok (0, 2, [0; 1], [sample_open; sample_open]).
Proof. vm_compute. reflexivity. Qed.

Lemma pick_returns questions_list wrong_indices to_retry w :
  Forall2 (fun i q => questions_list !! i = Some q) wrong_indices to_retry ->
  pick questions_list wrong_indices w = (w, Ok to_retry).
Proof.
  intros H. induction H as [|i q idx qs Hq _ IH]; [reflexivity|].
  simpl. rewrite Hq. unfold bind. simpl. rewrite IH. reflexivity.
Qed.

Lemma retry_loop_returns to_retry : forall lines,
  Forall2 (fun q l => answers true q l = true) to_retry lines ->
  forall i total w rest,
    stdin w = lines ++ rest ->
    exists w', retry_loop i to_retry total w = (w', Ok tt) /\ stdin w' = rest.
Proof.
  induction to_retry as [|q qs IH]; intros lines Hall i total w rest Hin.
  - inversion Hall; subst. exists w. split; [reflexivity | exact Hin].
  - inversion Hall as [|? l ? lines' Hq Hrest]; subst. simpl in Hin.
    destruct (ask_by_item_returns q l (i + 1) total w (lines' ++ rest) Hq Hin)
      as (w1 & b & Hask & Hin1).
    simpl. rewrite (bind_run _ _ _ _ _ Hask). eapply IH; eassumption.
Qed.

(** The wrong indices that a runner returns are positions of the list
    it returns.  [retry_wrong] on them never changes [scores.json], however
    it ends; when it returns it has asked exactly the questions at those
    positions, in the order of the (strictly increasing) indices, which is
    their order in the list; and it does return when every question to
    retry has its type and the user types one good line for each. *)
Lemma retry_wrong_after_run (w0 w1 : world) (score total : nat) (wrong : list nat)
    (used : list question) :
  ((exists questions title shuffle max_questions,
      run_set questions title shuffle max_questions w0
        = (w1, Ok (score, total, wrong, used)))
   \/ (exists section_title questions,
         run_practice_section section_title questions w0
           = (w1, Ok (score, total, wrong, used)))) ->
  Forall (fun i => i < length used) wrong
  /\ exists to_retry,
       Forall2 (fun i q => used !! i = Some q) wrong to_retry
       /\ sublist to_retry used
       /\ forall title w,
            scores (fst (retry_wrong used wrong title w)) = scores w
            /\ (forall w', retry_wrong used wrong title w = (w', Ok tt) ->
                           presented w' = presented w ++ to_retry)
            /\ (forall lines rest,
                  stdin w = lines ++ rest ->
                  Forall2 (fun q l => answers true q l = true) to_retry lines ->
                  exists w', retry_wrong used wrong title w = (w', Ok tt)
                             /\ stdin w' = rest).
Proof.
  intros Hrun.
  assert (H : total = length used /\ StronglySorted lt wrong
              /\ Forall (fun i => i < total) wrong).
  { destruct Hrun as [(questions & title & shuffle & max_questions & H)
                     |(section_title & questions & H)].
    - apply run_set_inv in H.
      destruct H as (_ & _ & _ & _ & Ht & _ & _ & Hs & Hall). auto.
    - apply run_practice_section_inv in H.
      destruct H as (_ & Ht & _ & _ & Hs & Hall). auto. }
  destruct H as (-> & Hsorted & Hall). split; [exact Hall|].
  assert (Hpick : exists to_retry,
             Forall2 (fun i q => used !! i = Some q) wrong to_retry).
  { clear Hsorted Hrun. induction Hall as [|i idx Hi _ IH].
    - exists []. constructor.
    - destruct IH as [qs Hqs].
      destruct (lookup_lt_is_Some_2 used i Hi) as [q Hq].
      exists (q :: qs). constructor; assumption. }
  destruct Hpick as [to_retry Hpick]. exists to_retry.
  split; [exact Hpick|]. split; [eapply pick_sublist; eassumption|].
  intros title w. split; [apply keeps_scores_retry_wrong|]. split.
  - intros w' Hretry. apply retry_wrong_inv in Hretry.
    destruct Hretry as (qs & Hqs & Hp).
    assert (qs = to_retry) as ->; [|exact Hp].
    clear -Hqs Hpick. revert qs Hqs.
    induction Hpick as [|i q idx qs' Hq _ IH]; intros qs Hqs.
    + inversion Hqs. reflexivity.
    + inversion Hqs as [|? q2 ? qs2 Hq2 Hrest]; subst.
      f_equal; [congruence | apply IH; assumption].
  - intros lines rest Hin Hlines. unfold retry_wrong.
    destruct wrong as [|i0 idx0] eqn:Ew.
    + inversion Hpick; subst. inversion Hlines; subst.
      exists w. split; [reflexivity | exact Hin].
    + rewrite <- Ew in *. clear Ew.
      rewrite (bind_run _ _ _ _ _ (pick_returns used wrong to_retry w Hpick)).
      erewrite bind_run by reflexivity.
      erewrite bind_run by reflexivity.
      erewrite bind_run by reflexivity.
      match goal with |- context [bind (retry_loop ?i ?qs ?t) _ ?w2] =>
        destruct (retry_loop_returns qs lines Hlines i t w2 rest Hin)
          as (w3 & Hloop & Hrest)
      end.
      rewrite (bind_run _ _ _ _ _ Hloop).
      eexists. split; [reflexivity | exact Hrest].
Qed.

Lemma read_choice_none options lines :
  (forall l, accepted_choice options l = false) ->
  exists out, read_choice options lines = (out, [], Raise EOFError).
Proof.
  intros Hnone. induction lines as [|l lines IH].
  - eexists. reflexivity.
  - simpl. pose proof (Hnone l) as Hl. unfold accepted_choice in Hl. rewrite Hl.
    destruct IH as [out ->]. eexists. reflexivity.
Qed.

(** For a multiple-choice question that has its stem, its options, a
    correct option among the labels and an explanation: the presenter asks
    again after every line whose trimmed, lower-cased form is not one of
    the labels, and takes the first line [u] whose trimmed, lower-cased
    form is a label; the answer is reported correct exactly when that form
    equals [correct_option]; the explanation is the last line printed,
    whether the answer was correct or not.  A label written in lower case
    is taken whatever the case the user types it in. *)
Lemma ask_mc_question_accepts (q : question)
    (stem : str) (options : list (str * str)) (correct_option correct_text : str)
    (explanation : str) (num total : nat) (w : world)
    (rejected : list str) (u : str) (rest : list str) :
  q_question q = Some stem ->
  q_options q = Some options ->
  q_correct_option q = Some correct_option ->
  dict_get options correct_option = Some correct_text ->
  q_explanation q = Some explanation ->
  stdin w = rejected ++ u :: rest ->
  Forall (fun l => accepted_choice options l = false) rejected ->
  accepted_choice options u = true ->
  (exists w' is_correct,
     ask_mc_question q num total w = (w', Ok is_correct)
     /\ (is_correct = true <-> lower (strip u) = correct_option)
     /\ dict_mem options (lower (strip u)) = true
     /\ stdin w' = rest
     /\ stdout w' =
          stdout w ++ [QuestionHeader num total; Plain stem]
            ++ map (fun lo => OptionLine lo.1 lo.2) options
            ++ reprompts rejected
            ++ [choice_prompt;
                if is_correct then CorrectMark
                else IncorrectChoice correct_option correct_text;
                Explanation explanation])
  /\ (forall label l,
        dict_mem options label = true ->
        lower label = label ->
        lower (strip l) = lower label ->
        accepted_choice options l = true).
Proof.
  intros Hq Ho Hc Ht He Hin Hrej Hu. split.
  - eexists _, _. split.
    + apply (ask_mc_question_run q stem options correct_option correct_text
               explanation num total w rejected u rest); assumption.
    + split; [apply str_eqb_eq|]. split; [exact Hu|]. split; reflexivity.
  - intros label l Hlabel Hlow Hl. unfold accepted_choice.
    rewrite Hl, Hlow. exact Hlabel.
Qed.

Lemma capital_labels_rejected options l :
  Forall (fun lo => lower lo.1 <> lo.1) options ->
  accepted_choice options l = false.
Proof.
  unfold accepted_choice, dict_mem. intros Hall.
  induction Hall as [|[label text] rest Hlabel _ IH]; [reflexivity|].
  simpl. unfold str_eqb at 1. rewrite bool_decide_eq_false_2; [exact IH|].
  intros Heq. apply Hlabel. simpl. rewrite <- Heq. apply lower_idem.
Qed.

(** C7 (the code does not do this).  The typed line is lower-cased before
    it is looked up among the labels, and the labels are not.  A label
    that has a capital letter is therefore never chosen, in whatever case
    the user types it.  When every label of a question has one, each line
    typed is answered by "Please type a, b, c, or d.", and the question
    ends only with the end of the input, by [EOFError]. *)
Theorem C7_capital_labels_never_accepted :
  (forall label l : str, lower label <> label -> lower (strip l) <> label)
  /\ (forall (q : question) (stem : str) (options : list (str * str))
             (num total : nat) (w : world),
        q_question q = Some stem ->
        q_options q = Some options ->
        Forall (fun lo => lower lo.1 <> lo.1) options ->
        exists w',
          ask_mc_question q num total w = (w', Raise EOFError)
          /\ stdin w' = []
          /\ stdout w'
             = stdout w ++ [QuestionHeader num total; Plain stem]
                 ++ map (fun lo => OptionLine lo.1 lo.2) options
                 ++ reprompts (stdin w) ++ [choice_prompt]).
Proof.
  split.
  - intros label l Hlabel Heq. apply Hlabel. rewrite <- Heq. apply lower_idem.
  - intros q stem options num total w Hq Ho Hall.
    assert (Hread : read_choice options (stdin w)
                    = (reprompts (stdin w) ++ [choice_prompt], [], Raise EOFError)).
    { induction (stdin w) as [|l lines IH]; [reflexivity|].
      simpl. pose proof (capital_labels_rejected options l Hall) as Hl.
      unfold accepted_choice in Hl. rewrite Hl, IH. reflexivity. }
    unfold ask_mc_question. rewrite Hq, Ho.
    unfold bind at 1. simpl.
    unfold bind at 1. simpl.
    unfold bind at 1. simpl.
    unfold bind at 1. simpl.
    unfold bind at 1. simpl.
    unfold bind at 1. rewrite print_options_run. simpl.
    unfold bind at 1. unfold input_choice. simpl. rewrite Hread.
    eexists. split; [reflexivity|]. split; [reflexivity|].
    simpl. repeat (rewrite <- app_assoc; simpl). reflexivity.
Qed.

Lemma C7_witness_capital_labels :
  exists w',
    ask_mc_question sample_mc_capitals 1 1 (start [lit "B"; lit "b"] Missing)
    = (w', Raise EOFError)
    /\ stdin w' = []
    /\ stdout w'
       = [QuestionHeader 1 1; Plain (lit "She ___ to school.");
          OptionLine (lit "A") (lit "go"); OptionLine (lit "B") (lit "goes");
          choice_prompt; please_type; choice_prompt; please_type; choice_prompt].
Proof.
  apply (proj2 C7_capital_labels_never_accepted sample_mc_capitals
           (lit "She ___ to school.") [(lit "A", lit "go"); (lit "B", lit "goes")]
           1 1 (start [lit "B"; lit "b"] Missing) eq_refl eq_refl).
  repeat constructor; discriminate.
Defined.

(** ** Further properties of the score history *)

Section MoreScoreFacts.

Variable fdiv : division.

Lemma update_stats_last old e st :
  update_stats fdiv old e = Ok st -> last st = Some (score e, total e).
Proof.
  unfold update_stats.
  destruct (improves fdiv (score e) (total e) (best old)) as [[|]|];
    [| |discriminate]; intros [= <-]; reflexivity.
Qed.

Lemma init_result_lookup set_ids k :
  init_result set_ids !! k
  = if decide (k ∈ set_ids ++ [lit "all"]) then Some (Stats None None) else None.
Proof.
  unfold init_result.
  assert (G : forall (l : list str) (m : gmap str stats),
            foldl (fun result sid => <[sid := Stats None None]> result) m l !! k
            = if decide (k ∈ l) then Some (Stats None None) else m !! k).
  { induction l as [|sid l IH]; intros m; simpl.
    - destruct (decide (k ∈ [])) as [H|H]; [inversion H | reflexivity].
    - rewrite IH. destruct (decide (k ∈ l)) as [Hl|Hl].
      + rewrite decide_True by (right; exact Hl). reflexivity.
      + destruct (decide (k = sid)) as [->|Hne].
        * rewrite decide_True by left. apply lookup_insert_eq.
        * rewrite lookup_insert_ne by congruence.
          rewrite decide_False; [reflexivity|].
          intros H. apply elem_of_cons in H. destruct H; contradiction. }
  rewrite G. rewrite lookup_empty. reflexivity.
Qed.

(** The loop invariant for ["last"]: under a key with records, the last of
    them; under any other key, what the first loop put there. *)
Lemma scan_history_last set_ids history : forall result seen result',
  (forall k, match list.last (entries_for k seen) with
             | Some e => exists st, result !! k = Some st
                                    /\ last st = Some (score e, total e)
             | None => result !! k = init_result set_ids !! k
             end) ->
  scan_history fdiv result history = Ok result' ->
  forall k, match list.last (entries_for k (seen ++ history)) with
            | Some e => exists st, result' !! k = Some st
                                   /\ last st = Some (score e, total e)
            | None => result' !! k = init_result set_ids !! k
            end.
Proof.
  induction history as [|e rest IH]; intros result seen result' Hinv Hscan.
  - simpl in Hscan. injection Hscan as <-. rewrite app_nil_r. exact Hinv.
  - simpl in Hscan.
    destruct (record_entry fdiv result e) as [r1|] eqn:Hrec; [|discriminate].
    replace (seen ++ e :: rest) with ((seen ++ [e]) ++ rest)
      by (rewrite <- app_assoc; reflexivity).
    eapply IH; [|exact Hscan].
    apply record_entry_Ok in Hrec. destruct Hrec as [(st & Hup & Hst) Hother].
    intros k. rewrite entries_for_app. destruct (decide (k = set_id e)) as [->|Hne].
    + rewrite entries_for_one_eq, last_snoc.
      exists st. split; [exact Hst|]. eapply update_stats_last. exact Hup.
    + rewrite entries_for_one_ne by assumption. rewrite app_nil_r.
      rewrite Hother by assumption. apply Hinv.
Qed.

(** X1.  Whenever [get_last_and_best] returns: under a key that has
    records, ["last"] is the (score, total) of the most recent of them; a key
    without records is in the result exactly when it is a set id or ["all"],
    and then both ["last"] and ["best"] are [None]. *)
Theorem X1_last_is_most_recent (set_ids : list str) (w : world)
    (history : list entry) (result : gmap str stats) :
  snd (load_scores w) = Ok history ->
  snd (get_last_and_best fdiv set_ids w) = Ok result ->
  forall k,
    match list.last (entries_for k history) with
    | Some e => exists st, result !! k = Some st
                           /\ last st = Some (score e, total e)
    | None => result !! k
              = if decide (k ∈ set_ids ++ [lit "all"])
                then Some (Stats None None) else None
    end.
Proof.
  intros Hload. unfold load_scores in Hload. simpl in Hload.
  rewrite get_last_and_best_run, Hload. simpl. intros Hscan k.
  pose proof (scan_history_last set_ids history (init_result set_ids) [] result) as H.
  simpl in H. rewrite <- init_result_lookup. apply H; [|exact Hscan].
  intros k'. reflexivity.
Qed.




End MoreScoreFacts.

Lemma X1_witness_sample_history :
  exists result st,
    snd (get_last_and_best exact_div [lit "s1"]
           (start [] (Document (Some sample_history)))) = Ok result
    /\ result !! lit "s1" = Some st
    /\ last st = Some (4, 4)%Z.
Proof.
  assert (Hrun : exists result,
             snd (get_last_and_best exact_div [lit "s1"]
                    (start [] (Document (Some sample_history)))) = Ok result).
  { apply scan_history_divides; [repeat constructor; discriminate|].
    apply init_result_divides. }
  destruct Hrun as [result Hrun].
  pose proof (X1_last_is_most_recent exact_div [lit "s1"]
                (start [] (Document (Some sample_history))) sample_history result
                eq_refl Hrun (lit "s1")) as H.
  assert (Hl : list.last (entries_for (lit "s1") sample_history)
               = Some (Entry (lit "s1") (lit "Set 1") 4 4 (lit "2024-01-03T10:00:00")))
    by (vm_compute; reflexivity).
  rewrite Hl in H. destruct H as (st & Hst & Hlast).
  exists result, st. auto.
Defined.


(** ** Saving, then reading the statistics *)

Lemma save_score_run sid title s t w history :
  get_history (scores w) = Ok history ->
  scores_writable w = true ->
  save_score sid title s t w
  = (World (stdin w) (stdout w)
           (Document (Some (history ++ [Entry sid title s t (clock w (ticks w))])))
           true (rng w) (draws w) (clock w) (S (ticks w)) (presented w) (torn w),
     Ok tt).
Proof.
  intros Hload Hw. unfold save_score, bind, load_scores, now_isoformat, write_scores.
  rewrite Hload. simpl. rewrite Hw. reflexivity.
Qed.

Section SaveFacts.

Variable fdiv : division.

(** X3.  A score that [save_score] has written is what [get_last_and_best]
    then reports as ["last"] under its key, and the ["best"] under that key
    has a ratio at least as great. *)
Theorem X3_saved_score_is_last (sid title : str) (s t : Z) (set_ids : list str)
    (w w' : world) (history : list entry) (result : gmap str stats) :
  snd (load_scores w) = Ok history ->
  save_score sid title s t w = (w', Ok tt) ->
  snd (get_last_and_best fdiv set_ids w') = Ok result ->
  exists st b,
    result !! sid = Some st
    /\ last st = Some (s, t)
    /\ best st = Some b
    /\ (fdiv s t <= fdiv b.1 b.2)%Q.
Proof.
  intros Hload Hsave Hget. unfold load_scores in Hload. simpl in Hload.
  assert (Hw : scores_writable w = true).
  { unfold save_score, bind, load_scores, now_isoformat, write_scores in Hsave.
    rewrite Hload in Hsave. simpl in Hsave.
    destruct (scores_writable w); [reflexivity | destruct (torn w); discriminate]. }
  rewrite (save_score_run sid title s t w history Hload Hw) in Hsave.
  injection Hsave as <-.
  rewrite get_last_and_best_run in Hget. simpl in Hget.
  set (e := Entry sid title s t (clock w (ticks w))) in *.
  pose proof (scan_history_last fdiv set_ids (history ++ [e])
                (init_result set_ids) [] result) as Hlast.
  simpl in Hlast. specialize (Hlast (fun k => eq_refl) Hget sid).
  rewrite entries_for_app in Hlast.
  change sid with (set_id e) in Hlast at 2.
  rewrite entries_for_one_eq, last_snoc in Hlast.
  destruct Hlast as (st & Hst & Hl).
  pose proof (scan_history_scanned fdiv (history ++ [e]) _ [] result
                (scanned_init fdiv set_ids) Hget) as Hinv.
  simpl in Hinv. destruct (Hinv sid) as [Hmax _].
  unfold stats_of in Hmax. rewrite Hst in Hmax. simpl in Hmax.
  assert (He : e ∈ entries_for sid (history ++ [e])).
  { rewrite entries_for_app. apply elem_of_app. right.
    change sid with (set_id e). rewrite entries_for_one_eq. left. }
  unfold first_maximum in Hmax.
  destruct (entries_for sid (history ++ [e])) as [|e0 es0] eqn:Hes;
    [inversion He|].
  destruct Hmax as (i & ei & _ & Hb & Hle & _).
  exists st, (score ei, total ei). split; [exact Hst|]. split; [exact Hl|].
  split; [exact Hb|]. apply (Hle e He).
Qed.

End SaveFacts.

Lemma X3_witness_save_then_read :
  exists w' result st b,
    save_score (lit "s1") (lit "Set 1") 1 3
      (start [] (Document (Some sample_history))) = (w', Ok tt)
    /\ snd (get_last_and_best exact_div [lit "s1"] w') = Ok result
    /\ result !! lit "s1" = Some st
    /\ last st = Some (1, 3)%Z
    /\ best st = Some b.
Proof.
  set (w := start [] (Document (Some sample_history))).
  pose proof (save_score_run (lit "s1") (lit "Set 1") 1 3 w sample_history
                eq_refl eq_refl) as Hsave.
  match type of Hsave with _ = (?w1, _) => set (w' := w1) in * end.
  assert (Hget : exists result,
             snd (get_last_and_best exact_div [lit "s1"] w') = Ok result).
  { rewrite get_last_and_best_run. unfold w'. cbn [scores get_history snd].
    apply scan_history_divides; [|apply init_result_divides].
    apply Forall_app. split; repeat constructor; discriminate. }
  destruct Hget as [result Hget].
  destruct (X3_saved_score_is_last exact_div (lit "s1") (lit "Set 1") 1 3
              [lit "s1"] w w' sample_history result eq_refl Hsave Hget)
    as (st & b & Hst & Hl & Hb & _).
  exists w', result, st, b. auto.
Defined.



(** ** The score summary of the menu *)

Section SummaryFacts.

Variable fdiv : division.

(** X5.  Whenever [show_scores_summary] returns, it has read nothing and
    left [scores.json] alone.  For a key without records it prints nothing,
    even when the key is a set id; otherwise it prints the last score of the
    key, followed by the best score only when that differs from the last as
    a (score, total) pair. *)
Theorem X5_show_scores_summary (set_ids : list str) (chosen_key : str)
    (w w' : world) (history : list entry) :
  snd (load_scores w) = Ok history ->
  show_scores_summary fdiv set_ids chosen_key w = (w', Ok tt) ->
  stdin w' = stdin w
  /\ scores w' = scores w
  /\ match list.last (entries_for chosen_key history) with
     | None => stdout w' = stdout w
     | Some e =>
         exists result b,
           snd (get_last_and_best fdiv set_ids w) = Ok result
           /\ best <$> result !! chosen_key = Some (Some b)
           /\ stdout w'
              = stdout w
                ++ last_score_line (score e, total e)
                   :: (if pair_eqb b (score e, total e) then []
                       else [best_score_line b])
     end.
Proof.
  intros Hload Hshow. unfold load_scores in Hload. simpl in Hload.
  unfold show_scores_summary in Hshow.
  apply bind_Ok in Hshow. destruct Hshow as (w1 & result & Hget & Hshow).
  rewrite get_last_and_best_run, Hload in Hget.
  injection Hget as <- Hscan.
  pose proof (scan_history_last fdiv set_ids history
                (init_result set_ids) [] result) as Hlast.
  simpl in Hlast. specialize (Hlast (fun k => eq_refl) Hscan chosen_key).
  pose proof (scan_history_scanned fdiv history _ [] result
                (scanned_init fdiv set_ids) Hscan) as Hinv.
  simpl in Hinv. destruct (Hinv chosen_key) as [Hmax _].
  destruct (list.last (entries_for chosen_key history)) as [e|] eqn:Hl.
  - destruct Hlast as (st & Hst & Hle). rewrite Hst in Hshow.
    unfold stats_of in Hmax. rewrite Hst in Hmax. simpl in Hmax.
    unfold first_maximum in Hmax.
    destruct (entries_for chosen_key history) as [|e0 es0]; [discriminate|].
    destruct Hmax as (i & ei & _ & Hb & _).
    rewrite Hle, Hb in Hshow. unfold bind in Hshow. simpl in Hshow.
    assert (Hout : stdout w'
                   = stdout w ++ last_score_line (score e, total e)
                       :: (if pair_eqb (score ei, total ei) (score e, total e)
                           then [] else [best_score_line (score ei, total ei)])
                   /\ stdin w' = stdin w /\ scores w' = scores w).
    { destruct (pair_eqb (score ei, total ei) (score e, total e));
        injection Hshow as <-; simpl; rewrite <- ?app_assoc; auto. }
    destruct Hout as (Hout & Hin & Hsc). split; [exact Hin|]. split; [exact Hsc|].
    exists result, (score ei, total ei).
    rewrite get_last_and_best_run, Hload. simpl. split; [exact Hscan|].
    split; [rewrite Hst; simpl; rewrite Hb; reflexivity | exact Hout].
  - rewrite Hlast, init_result_lookup in Hshow.
    destruct (decide (chosen_key ∈ set_ids ++ [lit "all"]));
      simpl in Hshow; unfold bind in Hshow; simpl in Hshow;
      injection Hshow as <-; auto.
Qed.

End SummaryFacts.

Lemma X5_witness_last_and_best :
  exists w',
    show_scores_summary exact_div [lit "s1"] (lit "s1")
      (start [] (Document (Some (take 3 sample_history)))) = (w', Ok tt)
    /\ stdout w' = [Plain (lit "  Last score for this set: 2/2")]
    /\ exists w'',
         show_scores_summary exact_div [lit "s1"] (lit "s1")
           (start [] (Document (Some sample_history))) = (w'', Ok tt)
         /\ stdout w'' = [Plain (lit "  Last score for this set: 4/4");
                          Plain (lit "  Best score for this set:  2/2")].
Proof.
  assert (H1 : forall h out,
             snd (show_scores_summary exact_div [lit "s1"] (lit "s1")
                    (start [] (Document (Some h)))) = Ok tt ->
             stdout (fst (show_scores_summary exact_div [lit "s1"] (lit "s1")
                            (start [] (Document (Some h))))) = out ->
             exists w', show_scores_summary exact_div [lit "s1"] (lit "s1")
                          (start [] (Document (Some h))) = (w', Ok tt)
                        /\ stdout w' = out).
  { intros h out Hr Ho.
    destruct (show_scores_summary exact_div [lit "s1"] (lit "s1")
                (start [] (Document (Some h)))) as [w' r]. simpl in *. subst.
    exists w'. auto. }
  destruct (H1 (take 3 sample_history) [Plain (lit "  Last score for this set: 2/2")])
    as (w' & Hrun & Hout); [vm_compute; reflexivity | vm_compute; reflexivity |].
  destruct (H1 sample_history [Plain (lit "  Last score for this set: 4/4");
                                Plain (lit "  Best score for this set:  2/2")])
    as (w'' & Hrun' & Hout'); [vm_compute; reflexivity | vm_compute; reflexivity |].
  pose proof (X5_show_scores_summary exact_div [lit "s1"] (lit "s1")
                (start [] (Document (Some (take 3 sample_history)))) w'
                (take 3 sample_history) eq_refl Hrun) as (Hin & _).
  exists w'. split; [exact Hrun|]. split; [exact Hout|].
  exists w''. auto.
Defined.

(** ** Further properties of the answer matcher *)

Section MoreTextFacts.

Lemma normalize_answer_fixed s :
  normalize_answer (normalize_answer s) = normalize_answer s.
Proof.
  rewrite (normalize_answer_split (normalize_answer s)).
  rewrite (normalize_answer_split s).
  rewrite lower_join, <- split_lower, lower_idem.
  rewrite split_join by apply split_words. reflexivity.
Qed.

Lemma normalize_answer_lower s : normalize_answer (lower s) = normalize_answer s.
Proof. rewrite !normalize_answer_split, lower_idem. reflexivity. Qed.

Lemma normalize_answer_strip s : normalize_answer (strip s) = normalize_answer s.
Proof.
  rewrite !normalize_answer_split, <- strip_lower, split_strip. reflexivity.
Qed.

Lemma lower_normalize_answer s : lower (normalize_answer s) = normalize_answer s.
Proof.
  rewrite normalize_answer_split, lower_join, <- split_lower, lower_idem.
  reflexivity.
Qed.

Lemma lstrip_no_leading t : no_leading_space t -> lstrip t = t.
Proof.
  intros H. destruct t as [|c t]; [reflexivity|].
  simpl. rewrite (H c t eq_refl). reflexivity.
Qed.

Lemma rstrip_no_trailing t : no_trailing_space t -> rstrip t = t.
Proof.
  intros H. unfold rstrip. rewrite lstrip_no_leading.
  - apply rev_involutive.
  - intros c r Hr. apply (H (rev r) c).
    rewrite <- (rev_involutive t), Hr. reflexivity.
Qed.

Lemma strip_trimmed t : no_leading_space t -> no_trailing_space t -> strip t = t.
Proof.
  intros Hl Ht. unfold strip. rewrite rstrip_no_trailing by assumption.
  apply lstrip_no_leading. exact Hl.
Qed.

Lemma normalize_answer_trimmed s :
  no_leading_space (normalize_answer s) /\ no_trailing_space (normalize_answer s).
Proof.
  rewrite normalize_answer_collapse. unfold trim_lower_collapse.
  pose proof (no_leading_lower _ (strip_no_leading s)) as Hl.
  pose proof (no_trailing_lower _ (strip_no_trailing s)) as Ht.
  rewrite <- (join_split_collapse _ Hl Ht).
  pose proof (split_words (lower (strip s))) as Hw.
  induction Hw as [|w ws [Hne Hw] Hws IH].
  - split; intros ? ? H; [discriminate | destruct a; discriminate].
  - destruct IH as [IHl IHt]. split.
    + intros c r Hc. destruct w as [|d w]; [congruence|].
      inversion Hw; subst. destruct ws; simpl in Hc; injection Hc as -> _; assumption.
    + intros a c Hc. destruct ws as [|w' ws'].
      * simpl in Hc. subst w. apply Forall_app in Hw. destruct Hw as [_ Hw].
        inversion Hw; assumption.
      * change (join (lit " ") (w :: w' :: ws'))
          with (w ++ lit " " ++ join (lit " ") (w' :: ws')) in Hc.
        destruct (join (lit " ") (w' :: ws')) as [|x j] eqn:Hj using rev_ind.
        -- exfalso. inversion Hws as [|? ? [Hne' _] _]; subst.
           destruct w' as [|y w'']; [congruence|].
           destruct ws'; simpl in Hj; [discriminate|discriminate].
        -- clear IHj. rewrite !app_assoc in Hc.
           apply app_inj_tail in Hc. destruct Hc as [_ <-].
           apply (IHt j x). reflexivity.
Qed.

Lemma strip_normalize_answer s : strip (normalize_answer s) = normalize_answer s.
Proof. apply strip_trimmed; apply normalize_answer_trimmed. Qed.

Lemma isspace_join_words ws :
  Forall is_word ws ->
  Forall (fun c => isspace c = true -> c = " "%char) (join (lit " ") ws).
Proof.
  intros Hws. induction Hws as [|w ws [_ Hw] Hws IH]; [constructor|].
  assert (Hword : Forall (fun c => isspace c = true -> c = " "%char) w).
  { eapply Forall_impl; [exact Hw|]. simpl. intros c Hc Hs. congruence. }
  destruct ws as [|w' ws']; [exact Hword|].
  change (join (lit " ") (w :: w' :: ws'))
    with (w ++ lit " " ++ join (lit " ") (w' :: ws')).
  apply Forall_app. split; [exact Hword|]. constructor; [reflexivity | exact IH].
Qed.

(** X6.  The normal form is canonical: it is trimmed, in lower case, has its
    whitespace collapsed, and the only whitespace left in it is the plain
    space. *)
Theorem X6_normalize_answer_canonical (s : str) :
  strip (normalize_answer s) = normalize_answer s
  /\ lower (normalize_answer s) = normalize_answer s
  /\ collapse_spaces (normalize_answer s) = normalize_answer s
  /\ Forall (fun c => isspace c = true -> c = " "%char) (normalize_answer s).
Proof.
  split; [apply strip_normalize_answer|]. split; [apply lower_normalize_answer|].
  split.
  - pose proof (normalize_answer_collapse (normalize_answer s)) as H.
    unfold trim_lower_collapse in H.
    rewrite strip_normalize_answer, lower_normalize_answer in H.
    rewrite <- H. apply normalize_answer_fixed.
  - rewrite normalize_answer_split. apply isspace_join_words, split_words.
Qed.

Lemma answer_matches_loop_app user a b :
  answer_matches_loop user (a ++ b)
  = answer_matches_loop user a || answer_matches_loop user b.
Proof.
  induction a as [|x a IH]; [reflexivity|].
  simpl. destruct (str_eqb user (normalize_answer x)); [reflexivity | exact IH].
Qed.

Lemma answer_matches_loop_normalized user a :
  answer_matches_loop user (map normalize_answer a) = answer_matches_loop user a.
Proof.
  induction a as [|x a IH]; [reflexivity|].
  simpl. rewrite normalize_answer_fixed, IH. reflexivity.
Qed.

Lemma answer_matches_strip l a : answer_matches (strip l) a = answer_matches l a.
Proof. unfold answer_matches. rewrite normalize_answer_strip. reflexivity. Qed.

(** X7.  The matcher sees its arguments only through their normal forms:
    normalising, trimming or lower-casing the user's answer, or normalising
    the accepted answers, changes no verdict.  An answer matches a
    concatenation of lists when it matches one of them, and every accepted
    answer matches the list it is in. *)
Theorem X7_answer_matches_invariant (u : str) (a b : list str) :
  answer_matches (normalize_answer u) a = answer_matches u a
  /\ answer_matches (strip u) a = answer_matches u a
  /\ answer_matches (lower u) a = answer_matches u a
  /\ answer_matches u (map normalize_answer a) = answer_matches u a
  /\ answer_matches u (a ++ b) = answer_matches u a || answer_matches u b
  /\ answer_matches u (a ++ u :: b) = true.
Proof.
  unfold answer_matches.
  rewrite normalize_answer_fixed, normalize_answer_strip, normalize_answer_lower.
  split; [reflexivity|]. split; [reflexivity|]. split; [reflexivity|].
  split; [apply answer_matches_loop_normalized|].
  split; [apply answer_matches_loop_app|].
  rewrite answer_matches_loop_app. simpl.
  unfold str_eqb. rewrite bool_decide_eq_true_2 by reflexivity.
  apply orb_true_r.
Qed.

End MoreTextFacts.

(** ** Further properties of the presenter *)

Section MorePresenterFacts.

(** X8.  How [ask_open_question] ends: [EOFError] when no line is left to
    read; [KeyError] when the record has no ["answers"] or no
    ["explanation"], and then only after a line has been read; otherwise it
    returns the verdict of the matcher on the line as typed (trimming it
    first changes nothing).  It prints the accepted answers exactly when the
    answer is wrong, and never touches [scores.json]. *)
Theorem X8_ask_open_question_outcome (q : question) (num total : nat) (w : world) :
  let after := ask_open_question q num total w in
  snd after
  = match stdin w with
    | [] => Raise EOFError
    | l :: _ =>
        match q_answers q, q_explanation q with
        | Some answers, Some _ => Ok (answer_matches l answers)
        | _, _ => Raise KeyError
        end
    end
  /\ stdin (fst after) = tail (stdin w)
  /\ scores (fst after) = scores w
  /\ (forall l rest answers explanation,
        stdin w = l :: rest ->
        q_answers q = Some answers ->
        q_explanation q = Some explanation ->
        stdout (fst after)
        = stdout w ++ [QuestionHeader num total; Plain (open_text q);
                       Prompt (lit "Your answer: ")]
            ++ (if answer_matches l answers then [CorrectMark]
                else [IncorrectMark; CorrectAnswers (join (lit " / ") answers)])
            ++ [Explanation explanation]).
Proof.
  intros after. subst after.
  split; [|split; [|split; [apply keeps_scores_ask_open|]]].
  - unfold ask_open_question, bind, present, print, input, item, ret, raise. simpl.
    destruct (stdin w) as [|l rest]; [reflexivity|].
    destruct (q_answers q) as [answers|]; simpl; [|destruct (q_explanation q); reflexivity].
    rewrite answer_matches_strip.
    destruct (answer_matches l answers); simpl;
      destruct (q_explanation q); reflexivity.
  - unfold ask_open_question, bind, present, print, input, item, ret, raise. simpl.
    destruct (stdin w) as [|l rest]; [reflexivity|].
    destruct (q_answers q) as [answers|]; simpl; [|reflexivity].
    destruct (answer_matches (strip l) answers); simpl;
      destruct (q_explanation q); reflexivity.
  - intros l rest answers explanation Hin Ha He.
    rewrite (ask_open_question_run q answers explanation num total w l rest Ha He Hin).
    simpl. rewrite answer_matches_strip. reflexivity.
Qed.

Lemma read_choice_Ok options lines : forall out unread u,
  read_choice options lines = (out, unread, Ok u) ->
  exists rejected l,
    lines = rejected ++ l :: unread
    /\ Forall (fun r => accepted_choice options r = false) rejected
    /\ accepted_choice options l = true
    /\ u = lower (strip l)
    /\ out = reprompts rejected ++ [choice_prompt].
Proof.
  induction lines as [|l lines IH]; intros out unread u H; [discriminate|].
  simpl in H. destruct (dict_mem options (lower (strip l))) eqn:Hl.
  - injection H as <- <- <-. exists [], l. repeat split; [constructor | exact Hl].
  - destruct (read_choice options lines) as [[out' unread'] r] eqn:Hr.
    injection H as <- <- ->.
    destruct (IH _ _ _ eq_refl) as (rejected & l' & -> & Hrej & Hacc & -> & ->).
    exists (l :: rejected), l'. repeat split; try assumption.
    constructor; assumption.
Qed.

Lemma ask_mc_question_inv (q : question) (num total : nat)
    (w w' : world) (is_correct : bool) :
  ask_mc_question q num total w = (w', Ok is_correct) ->
  complete_mc q = true
  /\ exists options rejected u,
       q_options q = Some options
       /\ stdin w = rejected ++ u :: stdin w'
       /\ Forall (fun l => accepted_choice options l = false) rejected
       /\ accepted_choice options u = true
       /\ (is_correct = true <-> q_correct_option q = Some (lower (strip u))).
Proof.
  unfold ask_mc_question. intros H.
  apply bind_Ok in H. destruct H as (w1 & [] & H1 & H).
  apply bind_Ok in H. destruct H as (w2 & [] & H2 & H).
  apply bind_Ok in H. destruct H as (w3 & stem & H3 & H).
  apply bind_Ok in H. destruct H as (w4 & [] & H4 & H).
  apply bind_Ok in H. destruct H as (w5 & options & H5 & H).
  apply bind_Ok in H. destruct H as (w6 & [] & H6 & H).
  apply bind_Ok in H. destruct H as (w7 & user_answer & H7 & H).
  apply bind_Ok in H. destruct H as (w8 & c & H8 & H).
  apply bind_Ok in H. destruct H as (w9 & [] & H9 & H).
  apply bind_Ok in H. destruct H as (w10 & ex & H10 & H).
  apply bind_Ok in H. destruct H as (w11 & [] & H11 & H).
  injection H as <- <-.
  destruct (q_question q) as [stem'|] eqn:Eq; [|discriminate].
  destruct (q_options q) as [options'|] eqn:Eo; [|discriminate].
  destruct (q_correct_option q) as [c'|] eqn:Ec; [|discriminate].
  destruct (q_explanation q) as [ex'|] eqn:Ee; [|discriminate].
  injection H3 as <- <-. injection H5 as <- <-. injection H8 as <- <-.
  injection H10 as <- <-.
  injection H1 as <-. injection H2 as <-. injection H4 as <-.
  rewrite print_options_run in H6. injection H6 as <-.
  unfold input_choice in H7.
  destruct (read_choice options' _) as [[out unread] r] eqn:Hr.
  injection H7 as <- ->. simpl in Hr.
  apply read_choice_Ok in Hr.
  destruct Hr as (rejected & u & Hin & Hrej & Hacc & -> & ->).
  assert (Hstdin : stdin w11 = unread).
  { injection H11 as <-.
    destruct (str_eqb (lower (strip u)) c').
    - injection H9 as <-. reflexivity.
    - apply bind_Ok in H9. destruct H9 as (wa & text & Ha & Hb).
      destruct (dict_get options' c'); [|discriminate].
      injection Ha as <- <-. injection Hb as <-. reflexivity. }
  assert (Hmem : dict_mem options' c' = true).
  { destruct (str_eqb (lower (strip u)) c') eqn:Heq.
    - apply str_eqb_eq in Heq. subst c'. exact Hacc.
    - apply bind_Ok in H9. destruct H9 as (wa & text & Ha & _).
      unfold dict_mem. destruct (dict_get options' c'); [reflexivity | discriminate]. }
  split.
  - unfold complete_mc. rewrite Eq, Eo, Ec, Ee. exact Hmem.
  - exists options', rejected, u. rewrite Hstdin.
    split; [reflexivity|]. split; [exact Hin|]. split; [exact Hrej|].
    split; [exact Hacc|]. rewrite str_eqb_eq. split; congruence.
Qed.

(** X9.  Whenever [ask_mc_question] returns, the record had its stem, its
    options, its explanation and a correct option that is one of the labels;
    the lines read were some rejected lines followed by one accepted line;
    and the answer is reported correct exactly when the trimmed, lower-cased
    form of that line is the correct option.  So a record whose correct
    option is not among its labels never gets through. *)
Theorem X9_ask_mc_question_returns (q : question) (num total : nat)
    (w w' : world) (is_correct : bool) :
  ask_mc_question q num total w = (w', Ok is_correct) ->
  complete_mc q = true
  /\ exists options rejected u,
       q_options q = Some options
       /\ stdin w = rejected ++ u :: stdin w'
       /\ Forall (fun l => accepted_choice options l = false) rejected
       /\ accepted_choice options u = true
       /\ (is_correct = true <-> q_correct_option q = Some (lower (strip u))).
Proof. apply ask_mc_question_inv. Qed.


End MorePresenterFacts.

Lemma X8_witness_wrong_answer :
  let after := ask_open_question sample_open 2 2 (start [lit "twice"] Missing) in
  snd after = Ok false
  /\ stdout (fst after)
     = [QuestionHeader 2 2; Plain (lit "How often? (3x)");
        Prompt (lit "Your answer: "); IncorrectMark;
        CorrectAnswers (lit "three times"); Explanation (lit "Use 'times'.")].
Proof.
  destruct (X8_ask_open_question_outcome sample_open 2 2 (start [lit "twice"] Missing))
    as (Hout & _ & _ & Hprint).
  split; [exact Hout|].
  exact (Hprint (lit "twice") [] [lit "three times"] (lit "Use 'times'.")
           eq_refl eq_refl eq_refl).
Defined.

Lemma X9_witness_second_try :
  exists w' options rejected u,
    ask_mc_question sample_mc 1 1 (start [lit "x"; lit " B "; lit "unread"] Missing)
      = (w', Ok true)
    /\ q_options sample_mc = Some options
    /\ [lit "x"; lit " B "; lit "unread"] = rejected ++ u :: stdin w'
    /\ accepted_choice options u = true.
Proof.
  assert (Hrun : ask_mc_question sample_mc 1 1
                   (start [lit "x"; lit " B "; lit "unread"] Missing)
                 = ((ask_mc_question sample_mc 1 1
                       (start [lit "x"; lit " B "; lit "unread"] Missing)).1,
                    Ok true))
    by (vm_compute; reflexivity).
  destruct (X9_ask_mc_question_returns sample_mc 1 1 _ _ true Hrun)
    as (_ & options & rejected & u & Ho & Hin & _ & Hacc & _).
  eexists _, options, rejected, u. split; [exact Hrun|]. auto.
Defined.

(** ** Further properties of the runners *)

Section MoreRunnerFacts.

Lemma ask_open_question_inv q num total w w' b :
  ask_open_question q num total w = (w', Ok b) ->
  complete_open q = true
  /\ exists l answers,
       stdin w = l :: stdin w'
       /\ q_answers q = Some answers
       /\ b = answer_matches l answers.
Proof.
  unfold ask_open_question, bind, present, print, input, item, ret, raise,
    complete_open. simpl.
  destruct (stdin w) as [|l rest]; [discriminate|].
  destruct (q_answers q) as [answers|]; simpl; [|discriminate].
  rewrite answer_matches_strip.
  destruct (answer_matches l answers) eqn:E; simpl;
    (destruct (q_explanation q); simpl; [|discriminate]);
    intros [= <- <-]; (split; [reflexivity|]); exists l, answers; simpl; auto.
Qed.

Lemma ask_by_item_complete q num total w w' b :
  ask_by_item q num total w = (w', Ok b) -> complete true q = true.
Proof.
  unfold ask_by_item, complete. intros H.
  apply bind_Ok in H. destruct H as (w1 & t & Ht & H).
  destruct (q_type q) as [t'|]; [|discriminate]. injection Ht as <- <-.
  destruct (is_mc t').
  - apply ask_mc_question_inv in H. apply H.
  - apply ask_open_question_inv in H. apply H.
Qed.

Lemma ask_by_get_complete q num total w w' b :
  ask_by_get q num total w = (w', Ok b) -> complete false q = true.
Proof.
  unfold ask_by_get, complete. intros H.
  destruct (q_type q) as [t|]; [destruct (is_mc t)|].
  - apply ask_mc_question_inv in H. apply H.
  - apply ask_open_question_inv in H. apply H.
  - apply ask_open_question_inv in H. apply H.
Qed.

Lemma quiz_loop_complete (ask : question -> nat -> nat -> M bool)
    (ok : question -> bool) :
  (forall q num total w w' b, ask q num total w = (w', Ok b) -> ok q = true) ->
  forall qs i total score wrong w w' r,
    quiz_loop ask i qs total score wrong w = (w', Ok r) ->
    Forall (fun q => ok q = true) qs.
Proof.
  intros Hask. induction qs as [|q qs IH]; intros i total score wrong w w' r H.
  - constructor.
  - simpl in H. apply bind_Ok in H. destruct H as (w1 & b & Hq & H).
    constructor; [eapply Hask; exact Hq|].
    destruct b; eapply IH; exact H.
Qed.

Lemma run_set_loop questions title shuffle max_questions w w' score total wrong used :
  run_set questions title shuffle max_questions w
    = (w', Ok (score, total, wrong, used)) ->
  exists w0, quiz_loop ask_by_item 0 used (length used) 0 [] w0
             = (w', Ok (score, wrong)).
Proof.
  unfold run_set. intros H.
  apply bind_Ok in H. destruct H as (w1 & ordering & _ & H).
  apply bind_Ok in H. destruct H as (w2 & [] & _ & H).
  apply bind_Ok in H. destruct H as (w3 & [] & _ & H).
  apply bind_Ok in H. destruct H as (w4 & [] & _ & H).
  apply bind_Ok in H. destruct H as (w5 & [score0 wrong0] & Hloop & H).
  injection H as <- <- <- <- <-. exists w4. exact Hloop.
Qed.

Lemma run_practice_section_loop section_title questions w w' score total wrong used :
  run_practice_section section_title questions w
    = (w', Ok (score, total, wrong, used)) ->
  exists w0, quiz_loop ask_by_get 0 used (length used) 0 [] w0
             = (w', Ok (score, wrong)).
Proof.
  unfold run_practice_section. intros H.
  apply bind_Ok in H. destruct H as (w2 & [] & _ & H).
  apply bind_Ok in H. destruct H as (w3 & [] & _ & H).
  apply bind_Ok in H. destruct H as (w4 & [] & _ & H).
  apply bind_Ok in H. destruct H as (w5 & [score0 wrong0] & Hloop & H).
  injection H as <- <- <- <- <-. exists w4. exact Hloop.
Qed.

(** X10.  A runner that returns has met no broken record: every question of
    the list it ran had its type (for [run_set]) and every key that asking
    it reads, with the correct option among the labels.  [run_set] reads the
    type with [q["type"]], so it cannot finish a list that holds a question
    without a type; [run_practice_section] reads it with [q.get("type")] and
    asks such a question as an open one. *)
Theorem X10_runners_need_complete_records :
  (forall questions title shuffle max_questions w w' score total wrong used,
     run_set questions title shuffle max_questions w
       = (w', Ok (score, total, wrong, used)) ->
     Forall (fun q => complete true q = true) used
     /\ Forall (fun q => is_Some (q_type q)) used)
  /\ (forall section_title questions w w' score total wrong used,
        run_practice_section section_title questions w
          = (w', Ok (score, total, wrong, used)) ->
        Forall (fun q => complete false q = true) used)
  /\ (forall q num total w,
        q_type q = None ->
        ask_by_item q num total w = (w, Raise KeyError)
        /\ ask_by_get q num total w = ask_open_question q num total w).
Proof.
  split; [|split].
  - intros questions title shuffle max_questions w w' score total wrong used H.
    apply run_set_loop in H. destruct H as [w0 H].
    apply (quiz_loop_complete _ (complete true) ask_by_item_complete) in H.
    split; [exact H|]. eapply Forall_impl; [exact H|]. simpl.
    intros q Hq. unfold complete in Hq.
    destruct (q_type q); [eexists; reflexivity | discriminate].
  - intros section_title questions w w' score total wrong used H.
    apply run_practice_section_loop in H. destruct H as [w0 H].
    apply (quiz_loop_complete _ (complete false) ask_by_get_complete) in H.
    exact H.
  - intros q num total w Hq. unfold ask_by_item, ask_by_get. rewrite Hq.
    split; reflexivity.
Qed.

Lemma X10_witness_two_questions :
  exists w',
    run_set sample_questions (lit "Set 1") false None session_wrong_first
      = (w', Ok (1, 2, [0], sample_questions))
    /\ Forall (fun q => complete true q = true) sample_questions.
Proof.
  assert (Hrun : run_set sample_questions (lit "Set 1") false None session_wrong_first
                 = ((run_set sample_questions (lit "Set 1") false None
                       session_wrong_first).1,
                    Ok (1, 2, [0], sample_questions)))
    by (vm_compute; reflexivity).
  eexists. split; [exact Hrun|].
  apply (proj1 X10_runners_need_complete_records sample_questions (lit "Set 1")
           false None session_wrong_first _ 1 2 [0] sample_questions Hrun).
Defined.

(** *** The verdicts decide the result *)

Lemma ask_mc_question_verdict q l num total w rest :
  complete_mc q = true ->
  accepted_choice (default [] (q_options q)) l = true ->
  stdin w = l :: rest ->
  exists w', ask_mc_question q num total w
             = (w', Ok (str_eqb (lower (strip l)) (default [] (q_correct_option q))))
             /\ stdin w' = rest.
Proof.
  unfold complete_mc. intros Hq Hl Hin.
  destruct (q_question q) as [stem|] eqn:E1; [|discriminate].
  destruct (q_options q) as [options|] eqn:E2; [|discriminate].
  destruct (q_correct_option q) as [c|] eqn:E3; [|discriminate].
  destruct (q_explanation q) as [ex|] eqn:E4; [|discriminate].
  apply dict_mem_get in Hq. destruct Hq as [text Ht]. simpl in Hl.
  eexists. split.
  - apply (ask_mc_question_run q stem options c text ex num total w [] l rest);
      auto.
  - reflexivity.
Qed.

Lemma ask_open_question_verdict q l num total w rest :
  complete_open q = true ->
  stdin w = l :: rest ->
  exists w', ask_open_question q num total w
             = (w', Ok (answer_matches (strip l) (default [] (q_answers q))))
             /\ stdin w' = rest.
Proof.
  unfold complete_open. intros Hq Hin.
  destruct (q_answers q) as [a|] eqn:E1; [|discriminate].
  destruct (q_explanation q) as [ex|] eqn:E2; [|discriminate].
  eexists. split.
  - apply (ask_open_question_run q a ex num total w l rest); auto.
  - reflexivity.
Qed.

Lemma ask_by_item_verdict q l num total w rest :
  answers true q l = true ->
  stdin w = l :: rest ->
  exists w', ask_by_item q num total w = (w', Ok (verdict q l)) /\ stdin w' = rest.
Proof.
  unfold answers, ask_by_item, verdict. intros Hq Hin.
  destruct (q_type q) as [t|]; [|discriminate]. simpl. unfold bind. simpl.
  destruct (is_mc t).
  - apply andb_true_iff in Hq. destruct Hq.
    apply ask_mc_question_verdict; assumption.
  - apply ask_open_question_verdict; assumption.
Qed.

Lemma ask_by_get_verdict q l num total w rest :
  answers false q l = true ->
  stdin w = l :: rest ->
  exists w', ask_by_get q num total w = (w', Ok (verdict q l)) /\ stdin w' = rest.
Proof.
  unfold answers, ask_by_get, verdict. intros Hq Hin.
  destruct (q_type q) as [t|]; [destruct (is_mc t)|].
  - apply andb_true_iff in Hq. destruct Hq.
    apply ask_mc_question_verdict; assumption.
  - apply ask_open_question_verdict; assumption.
  - apply ask_open_question_verdict; assumption.
Qed.

Lemma quiz_loop_verdicts (ask : question -> nat -> nat -> M bool)
    (ok : question -> str -> bool) :
  (forall q l num total w rest,
     ok q l = true -> stdin w = l :: rest ->
     exists w', ask q num total w = (w', Ok (verdict q l)) /\ stdin w' = rest) ->
  forall qs lines,
    Forall2 (fun q l => ok q l = true) qs lines ->
    forall i total score wrong w rest,
      stdin w = lines ++ rest ->
      exists w' score' added,
        quiz_loop ask i qs total score wrong w = (w', Ok (score', wrong ++ added))
        /\ stdin w' = rest
        /\ score' + length added = score + length qs
        /\ (forall j, j ∈ added <->
                      exists q l, i <= j /\ qs !! (j - i) = Some q
                                  /\ lines !! (j - i) = Some l
                                  /\ verdict q l = false).
Proof.
  intros Hask qs lines Hall.
  induction Hall as [|q l qs lines Hq Hall IH];
    intros i total score wrong w rest Hin.
  - exists w, score, []. rewrite app_nil_r. simpl.
    split; [reflexivity|]. split; [exact Hin|]. split; [lia|].
    intros j. split; [intros H; inversion H|].
    intros (q & l & _ & Hq & _). rewrite lookup_nil in Hq. discriminate.
  - simpl in Hin.
    destruct (Hask q l (i + 1) total w (lines ++ rest) Hq Hin) as (w1 & Hrun & Hin1).
    simpl. rewrite (bind_run _ _ _ _ _ Hrun).
    destruct (verdict q l) eqn:Hv.
    + destruct (IH (S i) total (score + 1) wrong w1 rest Hin1)
        as (w' & score' & added & Hloop & Hrest & Hsum & Hmem).
      exists w', score', added. split; [exact Hloop|]. split; [exact Hrest|].
      split; [lia|]. intros j. rewrite Hmem. split.
      * intros (q' & l' & Hj & Hq' & Hl' & Hv').
        exists q', l'. split; [lia|].
        replace (j - i) with (S (j - S i)) by lia. auto.
      * intros (q' & l' & Hj & Hq' & Hl' & Hv').
        destruct (decide (j = i)) as [->|Hne].
        -- rewrite Nat.sub_diag in Hq', Hl'. simpl in Hq', Hl'. congruence.
        -- exists q', l'. split; [lia|].
           replace (j - i) with (S (j - S i)) in Hq', Hl' by lia. auto.
    + destruct (IH (S i) total score (wrong ++ [i]) w1 rest Hin1)
        as (w' & score' & added & Hloop & Hrest & Hsum & Hmem).
      exists w', score', (i :: added). rewrite <- app_assoc in Hloop.
      split; [exact Hloop|]. split; [exact Hrest|]. split; [simpl; lia|].
      intros j. rewrite elem_of_cons, Hmem. split.
      * intros [->|(q' & l' & Hj & Hq' & Hl' & Hv')].
        -- exists q, l. rewrite Nat.sub_diag. auto.
        -- exists q', l'. split; [lia|].
           replace (j - i) with (S (j - S i)) by lia. auto.
      * intros (q' & l' & Hj & Hq' & Hl' & Hv').
        destruct (decide (j = i)) as [->|Hne]; [left; reflexivity|].
        right. exists q', l'. split; [lia|].
        replace (j - i) with (S (j - S i)) in Hq', Hl' by lia. auto.
Qed.

(** X11.  When the user types one line for each question, and each line is
    an answer (for a multiple-choice question, one of its labels in any
    case), [run_practice_section] returns, has read exactly those lines, and
    its result is decided by the verdicts: position [i] is in
    [wrong_indices] exactly when the [i]-th line is a wrong answer to the
    [i]-th question, and the score is the number of the other positions.
    The same holds for [run_set] without shuffle and limit. *)
Theorem X11_verdicts_decide_result (title : str) (questions : list question)
    (lines rest : list str) (w : world) :
  stdin w = lines ++ rest ->
  (Forall2 (fun q l => answers false q l = true) questions lines ->
   exists w' score wrong,
     run_practice_section title questions w
       = (w', Ok (score, length questions, wrong, questions))
     /\ stdin w' = rest
     /\ score + length wrong = length questions
     /\ (forall i, i ∈ wrong <->
                   exists q l, questions !! i = Some q /\ lines !! i = Some l
                               /\ verdict q l = false))
  /\ (Forall2 (fun q l => answers true q l = true) questions lines ->
      exists w' score wrong,
        run_set questions title false None w
          = (w', Ok (score, length questions, wrong, questions))
        /\ stdin w' = rest
        /\ score + length wrong = length questions
        /\ (forall i, i ∈ wrong <->
                      exists q l, questions !! i = Some q /\ lines !! i = Some l
                                  /\ verdict q l = false)).
Proof.
  intros Hin. split; intros Hall.
  - unfold run_practice_section.
    erewrite bind_run by reflexivity.
    erewrite bind_run by reflexivity.
    erewrite bind_run by reflexivity.
    match goal with |- context [bind (quiz_loop ?a ?i ?qs ?t ?s ?wr) _ ?w0] =>
      destruct (quiz_loop_verdicts a (answers false) ask_by_get_verdict
                  qs lines Hall i t s wr w0 rest Hin)
        as (w' & score & added & Hloop & Hrest & Hsum & Hmem)
    end.
    exists w', score, added. rewrite (bind_run _ _ _ _ _ Hloop).
    split; [reflexivity|]. split; [exact Hrest|]. split; [simpl in Hsum; lia|].
    intros i. rewrite Hmem. rewrite Nat.sub_0_r.
    split; intros (q & l & H); exists q, l; [apply H | split; [lia | exact H]].
  - unfold run_set.
    rewrite (bind_run (ret questions) _ w w questions eq_refl).
    erewrite bind_run by reflexivity.
    erewrite bind_run by reflexivity.
    erewrite bind_run by reflexivity.
    match goal with |- context [bind (quiz_loop ?a ?i ?qs ?t ?s ?wr) _ ?w0] =>
      destruct (quiz_loop_verdicts a (answers true) ask_by_item_verdict
                  qs lines Hall i t s wr w0 rest Hin)
        as (w' & score & added & Hloop & Hrest & Hsum & Hmem)
    end.
    exists w', score, added. rewrite (bind_run _ _ _ _ _ Hloop).
    split; [reflexivity|]. split; [exact Hrest|]. split; [simpl in Hsum; lia|].
    intros i. rewrite Hmem. rewrite Nat.sub_0_r.
    split; intros (q & l & H); exists q, l; [apply H | split; [lia | exact H]].
Qed.

End MoreRunnerFacts.

Lemma X11_witness_two_questions :
  exists w' score wrong,
    run_practice_section (lit "Gap fill") sample_questions session_wrong_first
      = (w', Ok (score, 2, wrong, sample_questions))
    /\ stdin w' = []
    /\ (0 ∈ wrong) /\ ~ (1 ∈ wrong).
Proof.
  destruct (proj1 (X11_verdicts_decide_result (lit "Gap fill") sample_questions
                     [lit "a"; lit " Three  TIMES "] [] session_wrong_first eq_refl))
    as (w' & score & wrong & Hrun & Hrest & _ & Hmem).
  { repeat constructor. }
  exists w', score, wrong. split; [exact Hrun|]. split; [exact Hrest|]. split.
  - apply Hmem. exists sample_mc, (lit "a"). repeat split.
  - intros H. apply Hmem in H. destruct H as (q & l & Hq & Hl & Hv).
    simpl in Hq, Hl. injection Hq as <-. injection Hl as <-.
    vm_compute in Hv. discriminate.
Defined.

(** ** How a session can fail *)

Section FailureFacts.

Lemma bind_Raise {A B} (m : M A) (k : A -> M B) w w' e :
  bind m k w = (w', Raise e) ->
  m w = (w', Raise e) \/ exists w1 a, m w = (w1, Ok a) /\ k a w1 = (w', Raise e).
Proof.
  unfold bind. destruct (m w) as [w1 [a|e1]]; intros H.
  - right. exists w1, a. split; [reflexivity | exact H].
  - left. injection H as <- <-. reflexivity.
Qed.

Lemma read_choice_Raise options lines : forall out unread e,
  read_choice options lines = (out, unread, Raise e) ->
  e = EOFError /\ unread = [].
Proof.
  induction lines as [|l lines IH]; intros out unread e H; simpl in H.
  - injection H as _ <- <-. split; reflexivity.
  - destruct (dict_mem options (lower (strip l))); [discriminate|].
    destruct (read_choice options lines) as [[out' unread'] r] eqn:Hr.
    injection H as _ <- ->. eapply IH. reflexivity.
Qed.

Lemma item_Ok {A} (field : option A) w w' a :
  item field w = (w', Ok a) -> field = Some a /\ w' = w.
Proof. destruct field; [|discriminate]. intros [= <- <-]. auto. Qed.

Lemma item_Raise {A} (field : option A) w w' e :
  item field w = (w', Raise e) -> field = None /\ e = KeyError.
Proof. destruct field; [discriminate|]. intros [= <- <-]. auto. Qed.

Ltac next H :=
  let w1 := fresh "w" in
  let a := fresh "a" in
  let Hs := fresh "Hs" in
  apply bind_Raise in H;
  destruct H as [H | (w1 & a & Hs & H)];
  [try discriminate | try (apply item_Ok in Hs as [Hs _]; rewrite Hs)].

Lemma print_options_Raise options w w' e :
  print_options options w = (w', Raise e) -> False.
Proof. rewrite print_options_run. discriminate. Qed.

Lemma ask_mc_question_Raise q num total w w' e :
  ask_mc_question q num total w = (w', Raise e) ->
  (e = EOFError /\ stdin w' = []) \/ (e = KeyError /\ complete_mc q = false).
Proof.
  unfold ask_mc_question, complete_mc. intros H.
  next H. next H. next H.
  { apply item_Raise in H as [-> ->]. right. auto. }
  next H. next H.
  { apply item_Raise in H as [-> ->]. right. auto. }
  next H. { apply print_options_Raise in H. contradiction. }
  next H.
  { unfold input_choice in H.
    destruct (read_choice _ _) as [[out unread] r] eqn:Hr.
    injection H as <- ->. apply read_choice_Raise in Hr as [-> ->].
    left. auto. }
  next H.
  { apply item_Raise in H as [-> ->]. right. auto. }
  next H.
  { destruct (str_eqb _ _); [discriminate|].
    next H.
    - apply item_Raise in H as [Hget ->]. right. split; [reflexivity|].
      unfold dict_mem. rewrite Hget. destruct (q_explanation q); reflexivity.
    - discriminate. }
  next H.
  { apply item_Raise in H as [-> ->]. right. auto. }
  next H. discriminate.
Qed.

Lemma ask_open_question_Raise q num total w w' e :
  ask_open_question q num total w = (w', Raise e) ->
  (e = EOFError /\ stdin w' = []) \/ (e = KeyError /\ complete_open q = false).
Proof.
  unfold ask_open_question, complete_open. intros H.
  next H. next H. next H. next H.
  { unfold input in H. destruct (stdin _); [|discriminate].
    injection H as <- <-. left. auto. }
  next H.
  { apply item_Raise in H as [-> ->]. right. auto. }
  next H.
  { destruct (answer_matches _ _); [discriminate|].
    next H. discriminate. }
  next H.
  { apply item_Raise in H as [-> ->]. right. auto. }
  next H. discriminate.
Qed.

Lemma ask_by_item_Raise q num total w w' e :
  ask_by_item q num total w = (w', Raise e) ->
  (e = EOFError /\ stdin w' = []) \/ (e = KeyError /\ complete true q = false).
Proof.
  unfold ask_by_item, complete. intros H. next H.
  { apply item_Raise in H as [-> ->]. right. auto. }
  destruct (is_mc a).
  - apply ask_mc_question_Raise in H. exact H.
  - apply ask_open_question_Raise in H. exact H.
Qed.

Lemma ask_by_get_Raise q num total w w' e :
  ask_by_get q num total w = (w', Raise e) ->
  (e = EOFError /\ stdin w' = []) \/ (e = KeyError /\ complete false q = false).
Proof.
  unfold ask_by_get, complete. intros H.
  destruct (q_type q) as [t|]; [destruct (is_mc t)|].
  - apply ask_mc_question_Raise in H. exact H.
  - apply ask_open_question_Raise in H. exact H.
  - apply ask_open_question_Raise in H. exact H.
Qed.

Lemma quiz_loop_Raise (ask : question -> nat -> nat -> M bool)
    (ok : question -> bool) :
  (forall q num total w w' e,
     ask q num total w = (w', Raise e) ->
     (e = EOFError /\ stdin w' = []) \/ (e = KeyError /\ ok q = false)) ->
  forall qs i total score wrong w w' e,
    quiz_loop ask i qs total score wrong w = (w', Raise e) ->
    (e = EOFError /\ stdin w' = [])
    \/ (e = KeyError /\ exists q, q ∈ qs /\ ok q = false).
Proof.
  intros Hask. induction qs as [|q qs IH]; intros i total score wrong w w' e H.
  - discriminate.
  - simpl in H. next H.
    + apply Hask in H. destruct H as [H | [-> Hq]]; [left; exact H|].
      right. split; [reflexivity|]. exists q. split; [left | exact Hq].
    + assert (Hrest : (e = EOFError /\ stdin w' = [])
                      \/ (e = KeyError /\ exists q, q ∈ qs /\ ok q = false))
        by (destruct a; eapply IH; exact H).
      destruct Hrest as [Hrest | [-> (q' & Hq' & Hok)]]; [left; exact Hrest|].
      right. split; [reflexivity|]. exists q'. split; [right; exact Hq' | exact Hok].
Qed.

Lemma retry_loop_Raise : forall to_retry i total w w' e,
  retry_loop i to_retry total w = (w', Raise e) ->
  (e = EOFError /\ stdin w' = [])
  \/ (e = KeyError /\ exists q, q ∈ to_retry /\ complete true q = false).
Proof.
  induction to_retry as [|q qs IH]; intros i total w w' e H.
  - discriminate.
  - simpl in H. next H.
    + apply ask_by_item_Raise in H. destruct H as [H | [-> Hq]]; [left; exact H|].
      right. split; [reflexivity|]. exists q. split; [left | exact Hq].
    + apply IH in H.
      destruct H as [H | [-> (q' & Hq' & Hok)]]; [left; exact H|].
      right. split; [reflexivity|]. exists q'. split; [right; exact Hq' | exact Hok].
Qed.

Lemma slice_to_elem_of (qs : list question) n q : q ∈ slice_to qs n -> q ∈ qs.
Proof.
  unfold slice_to. destruct (0 <=? n)%Z; intros H;
    apply elem_of_take in H; destruct H as (i & H & _);
    eapply list_elem_of_lookup_2; exact H.
Qed.

(** X12.  A runner that does not return has run out of input or met a
    broken record, and nothing else: the exception is [EOFError], raised with
    every line of the input read, or [KeyError], and then one of the
    questions of the list lacks a key that asking it reads (for [run_set]
    this includes a question without a type). *)
Theorem X12_runner_failures :
  (forall questions title shuffle max_questions w w' e,
     run_set questions title shuffle max_questions w = (w', Raise e) ->
     (e = EOFError /\ stdin w' = [])
     \/ (e = KeyError /\ exists q, q ∈ questions /\ complete true q = false))
  /\ (forall section_title questions w w' e,
        run_practice_section section_title questions w = (w', Raise e) ->
        (e = EOFError /\ stdin w' = [])
        \/ (e = KeyError /\ exists q, q ∈ questions /\ complete false q = false)).
Proof.
  split.
  - intros questions title shuffle max_questions w w' e H.
    unfold run_set in H. apply bind_Raise in H.
    destruct H as [H | (w1 & ordering & Hord & H)].
    { destruct shuffle; [|discriminate].
      destruct (random_shuffle_run questions w) as (w1 & o & Hrun & _).
      congruence. }
    assert (Hperm : ordering ≡ₚ questions).
    { destruct shuffle.
      - destruct (random_shuffle_run questions w) as (w2 & o & Hrun & Hp & _).
        congruence.
      - injection Hord as _ <-. reflexivity. }
    next H. next H. next H. next H; [|discriminate].
    apply (quiz_loop_Raise _ (complete true) ask_by_item_Raise) in H.
    destruct H as [H | [-> (q & Hq & Hok)]]; [left; exact H|].
    right. split; [reflexivity|]. exists q. split; [|exact Hok].
    rewrite <- Hperm.
    destruct max_questions as [n|]; [|exact Hq].
    destruct (n <? Z.of_nat (length ordering))%Z; [|exact Hq].
    eapply slice_to_elem_of. exact Hq.
  - intros section_title questions w w' e H.
    unfold run_practice_section in H.
    next H. next H. next H. next H; [|discriminate].
    apply (quiz_loop_Raise _ (complete false) ask_by_get_Raise) in H. exact H.
Qed.

Lemma X12_witness_input_ends :
  exists w',
    run_set sample_questions (lit "Set 1") false None
      (start [lit "a"] Missing) = (w', Raise EOFError)
    /\ stdin w' = [].
Proof.
  assert (Hrun : run_set sample_questions (lit "Set 1") false None
                   (start [lit "a"] Missing)
                 = ((run_set sample_questions (lit "Set 1") false None
                       (start [lit "a"] Missing)).1, Raise EOFError))
    by (vm_compute; reflexivity).
  eexists. split; [exact Hrun|].
  destruct (proj1 X12_runner_failures sample_questions (lit "Set 1") false None
              (start [lit "a"] Missing) _ EOFError Hrun) as [[_ H] | [H _]];
    [exact H | discriminate H].
Defined.

Lemma pick_Raise questions_list : forall wrong_indices w,
  Exists (fun i => length questions_list <= i) wrong_indices ->
  pick questions_list wrong_indices w = (w, Raise IndexError).
Proof.
  induction wrong_indices as [|i rest IH]; intros w H.
  - inversion H.
  - simpl. unfold bind.
    destruct (questions_list !! i) as [q|] eqn:Hq; [|reflexivity].
    simpl. apply lookup_lt_Some in Hq.
    apply Exists_cons in H. destruct H as [H | H]; [lia|].
    rewrite (IH w H). reflexivity.
Qed.

Lemma pick_in_range (questions_list : list question) (wrong_indices : list nat) :
  Forall (fun i => i < length questions_list) wrong_indices ->
  exists to_retry,
    Forall2 (fun i q => questions_list !! i = Some q) wrong_indices to_retry.
Proof.
  induction 1 as [|i rest Hi _ [qs IH]]; [exists []; constructor|].
  destruct (lookup_lt_is_Some_2 questions_list i Hi) as [q Hq].
  exists (q :: qs). constructor; assumption.
Qed.

(** X13.  [retry_wrong] with an index that is not a position of the list
    raises [IndexError] before it prints or asks anything: the world is
    left as it was.  With indices that are all positions of the list it can
    only fail as the runners do, by the end of the input or by a broken
    record among the questions to retry. *)
Theorem X13_retry_wrong_failures (questions_list : list question)
    (wrong_indices : list nat) (title : str) (w : world) :
  (Exists (fun i => length questions_list <= i) wrong_indices ->
   retry_wrong questions_list wrong_indices title w = (w, Raise IndexError))
  /\ (Forall (fun i => i < length questions_list) wrong_indices ->
      forall w' e,
        retry_wrong questions_list wrong_indices title w = (w', Raise e) ->
        (e = EOFError /\ stdin w' = [])
        \/ (e = KeyError
            /\ exists i q, i ∈ wrong_indices /\ questions_list !! i = Some q
                           /\ complete true q = false)).
Proof.
  split.
  - intros H. unfold retry_wrong.
    destruct wrong_indices as [|i rest]; [inversion H|].
    unfold bind at 1. rewrite (pick_Raise _ _ _ H). reflexivity.
  - intros Hall w' e H. unfold retry_wrong in H.
    destruct wrong_indices as [|i rest]; [discriminate|].
    destruct (pick_in_range questions_list (i :: rest) Hall) as (to_retry & Hsel).
    pose proof (pick_returns _ _ _ w Hsel) as Hpick.
    pose proof (pick_inv _ _ _ _ _ Hpick) as Hinv.
    rewrite (bind_run _ _ _ _ _ Hpick) in H.
    next H. next H. next H. next H; [|discriminate].
    apply retry_loop_Raise in H.
    destruct H as [H | [-> (q & Hq & Hok)]]; [left; exact H|].
    right. split; [reflexivity|].
    destruct Hinv as [_ Hinv].
    apply list_elem_of_lookup_1 in Hq. destruct Hq as [k Hk].
    destruct (Forall2_lookup_r _ _ _ _ _ Hinv Hk) as (j & Hj & Hjq).
    exists j, q. split; [eapply list_elem_of_lookup_2; exact Hj|]. auto.
Qed.

End FailureFacts.

Lemma X13_witness_index_out_of_range :
  retry_wrong sample_questions [0; 2] (lit "Set 1") session_wrong_first
    = (session_wrong_first, Raise IndexError).
Proof.
  apply (proj1 (X13_retry_wrong_failures sample_questions [0; 2] (lit "Set 1")
                  session_wrong_first)).
  apply Exists_cons. right. apply Exists_cons. left. simpl. lia.
Defined.

(** ** Retrying after a practice section *)

Section RetryFacts.

Lemma retry_loop_complete : forall to_retry i total w w' u,
  retry_loop i to_retry total w = (w', Ok u) ->
  Forall (fun q => complete true q = true) to_retry.
Proof.
  induction to_retry as [|q qs IH]; intros i total w w' u H.
  - constructor.
  - simpl in H. apply bind_Ok in H. destruct H as (w1 & b & Hq & H).
    constructor; [eapply ask_by_item_complete; exact Hq | eapply IH; exact H].
Qed.

Lemma retry_wrong_complete (questions_list : list question)
    (wrong_indices : list nat) (title : str) (w w' : world) (u : unit) :
  retry_wrong questions_list wrong_indices title w = (w', Ok u) ->
  Forall (fun i => exists q, questions_list !! i = Some q
                             /\ complete true q = true) wrong_indices.
Proof.
  unfold retry_wrong. intros H.
  destruct wrong_indices as [|i rest]; [constructor|].
  apply bind_Ok in H. destruct H as (w1 & to_retry & Hpick & H).
  apply pick_inv in Hpick. destruct Hpick as [-> Hsel].
  apply bind_Ok in H. destruct H as (w2 & [] & _ & H).
  apply bind_Ok in H. destruct H as (w3 & [] & _ & H).
  apply bind_Ok in H. destruct H as (w4 & [] & _ & H).
  apply bind_Ok in H. destruct H as (w5 & [] & Hloop & _).
  apply retry_loop_complete in Hloop.
  revert Hloop. clear -Hsel. induction Hsel as [|j q idx qs Hq _ IH]; intros Hall.
  - constructor.
  - apply Forall_cons in Hall. destruct Hall as [Hc Hall].
    constructor; [exists q; auto | apply IH; exact Hall].
Qed.

(** X14.  [retry_wrong] returns only when every index is a position of the
    list and every question to retry has its type and the keys that asking
    it reads: it reads the type with [q["type"]].  A practice section asks a
    question without a type as an open one; when such a question was
    answered wrongly there, the retry of that section's wrong questions
    cannot complete. *)
Theorem X14_retry_needs_typed_questions :
  (forall questions_list wrong_indices title w w' u,
     retry_wrong questions_list wrong_indices title w = (w', Ok u) ->
     Forall (fun i => exists q, questions_list !! i = Some q
                                /\ complete true q = true) wrong_indices)
  /\ (forall section_title questions w w1 score total wrong_indices questions_used
             i q,
        run_practice_section section_title questions w
          = (w1, Ok (score, total, wrong_indices, questions_used)) ->
        i ∈ wrong_indices ->
        questions_used !! i = Some q ->
        q_type q = None ->
        forall title w2 u,
          retry_wrong questions_used wrong_indices title w1 <> (w2, Ok u)).
Proof.
  split.
  - intros questions_list wrong_indices title w w' u.
    apply retry_wrong_complete.
  - intros section_title questions w w1 score total wrong_indices questions_used
           i q _ Hi Hq Ht title w2 u H.
    apply retry_wrong_complete in H.
    rewrite Forall_forall in H. destruct (H i Hi) as (q' & Hq' & Hc).
    rewrite Hq in Hq'. injection Hq' as <-.
    unfold complete in Hc. rewrite Ht in Hc. discriminate.
Qed.

End RetryFacts.

Lemma X14_witness_untyped_question :
  exists w1,
    run_practice_section (lit "Gap fill") [sample_untyped]
      (start [lit "saw"; lit "have seen"] Missing)
      = (w1, Ok (0, 1, [0], [sample_untyped]))
    /\ retry_wrong [sample_untyped] [0] (lit "Gap fill (retry)") w1
       = ((retry_wrong [sample_untyped] [0] (lit "Gap fill (retry)") w1).1,
          Raise KeyError)
    /\ forall w2 u,
         retry_wrong [sample_untyped] [0] (lit "Gap fill (retry)") w1 <> (w2, Ok u).
Proof.
  assert (Hrun : run_practice_section (lit "Gap fill") [sample_untyped]
                   (start [lit "saw"; lit "have seen"] Missing)
                 = ((run_practice_section (lit "Gap fill") [sample_untyped]
                       (start [lit "saw"; lit "have seen"] Missing)).1,
                    Ok (0, 1, [0], [sample_untyped])))
    by (vm_compute; reflexivity).
  eexists. split; [exact Hrun|]. split; [vm_compute; reflexivity|].
  apply (proj2 X14_retry_needs_typed_questions (lit "Gap fill") [sample_untyped]
           (start [lit "saw"; lit "have seen"] Missing) _ 0 1 [0] [sample_untyped]
           0 sample_untyped Hrun).
  - apply list_elem_of_singleton. reflexivity.
  - reflexivity.
  - reflexivity.
Defined.

(** C5 (the code does not do this).  [run_practice_section] asks a question
    without a ["type"] as an open one, and [retry_wrong], which is called on
    what it returns, reads [q["type"]].  When the first question that was
    answered wrongly in a practice section has no type, the retry prints
    its heading and raises [KeyError]: no question is asked again and no
    line is read, whatever the user would have typed. *)
Theorem C5_retry_wrong_untyped (section_title : str) (questions : list question)
    (w0 w1 : world) (score total : nat) (wrong_indices : list nat)
    (questions_used : list question) (i : nat) (q : question) (title : str) :
  run_practice_section section_title questions w0
    = (w1, Ok (score, total, wrong_indices, questions_used)) ->
  head wrong_indices = Some i ->
  questions_used !! i = Some q ->
  q_type q = None ->
  exists w2,
    retry_wrong questions_used wrong_indices title w1 = (w2, Raise KeyError)
    /\ presented w2 = presented w1
    /\ stdin w2 = stdin w1
    /\ stdout w2
       = stdout w1 ++ [Plain (nl ++ ruler "-");
                       Plain (lit "Retry: questions you got wrong");
                       Plain (ruler "-")].
Proof.
  intros Hrun Hhead Hq Ht.
  apply run_practice_section_inv in Hrun.
  destruct Hrun as (_ & -> & _ & _ & _ & Hrange).
  destruct (pick_in_range questions_used wrong_indices Hrange) as (to_retry & Hsel).
  pose proof (pick_returns _ _ _ w1 Hsel) as Hpick.
  destruct wrong_indices as [|i0 rest]; [discriminate|].
  injection Hhead as ->.
  inversion Hsel as [|? q0 ? qs Hq0 Hrest]; subst.
  assert (q0 = q) as -> by congruence.
  unfold retry_wrong. rewrite (bind_run _ _ _ _ _ Hpick).
  erewrite bind_run by reflexivity.
  erewrite bind_run by reflexivity.
  erewrite bind_run by reflexivity.
  simpl retry_loop. unfold ask_by_item. rewrite Ht.
  eexists. split; [reflexivity|]. simpl.
  split; [reflexivity|]. split; [reflexivity|].
  repeat (rewrite <- app_assoc; simpl). reflexivity.
Qed.

Lemma C5_witness_untyped_after_practice :
  exists w1 w2,
    run_practice_section (lit "Gap fill") [sample_untyped]
      (start [lit "saw"; lit "have seen"] Missing)
      = (w1, Ok (0, 1, [0], [sample_untyped]))
    /\ retry_wrong [sample_untyped] [0] (lit "Gap fill (retry)") w1
       = (w2, Raise KeyError)
    /\ presented w2 = presented w1
    /\ stdin w2 = [lit "have seen"].
Proof.
  assert (Hrun : run_practice_section (lit "Gap fill") [sample_untyped]
                   (start [lit "saw"; lit "have seen"] Missing)
                 = ((run_practice_section (lit "Gap fill") [sample_untyped]
                       (start [lit "saw"; lit "have seen"] Missing)).1,
                    Ok (0, 1, [0], [sample_untyped])))
    by (vm_compute; reflexivity).
  destruct (C5_retry_wrong_untyped (lit "Gap fill") [sample_untyped]
              (start [lit "saw"; lit "have seen"] Missing) _ 0 1 [0]
              [sample_untyped] 0 sample_untyped (lit "Gap fill (retry)")
              Hrun eq_refl eq_refl eq_refl)
    as (w2 & Hretry & Hpres & Hin & _).
  eexists _, w2. split; [exact Hrun|]. split; [exact Hretry|].
  split; [exact Hpres|]. rewrite Hin. vm_compute. reflexivity.
Defined.

(** ** The knowledge check *)

Section CheckFacts.

Lemma check_loop_quiz_loop : forall questions i total score wrong w,
  check_loop (S i) questions total score w
  = match quiz_loop ask_by_get i questions total score wrong w with
    | (w', Ok r) => (w', Ok r.1)
    | (w', Raise e) => (w', Raise e)
    end.
Proof.
  induction questions as [|q qs IH]; intros i total score wrong w.
  - reflexivity.
  - simpl. unfold bind. rewrite !Nat.add_1_r.
    destruct (ask_by_get q (S i) total w) as [w1 [[|]|e]].
    + apply IH.
    + apply IH.
    + reflexivity.
Qed.

Lemma keeps_scores_run_practice_section section_title questions :
  keeps_scores (run_practice_section section_title questions).
Proof.
  unfold run_practice_section.
  repeat (apply keeps_scores_bind;
          [first [apply keeps_scores_print | apply keeps_scores_quiz_loop;
                  intros; apply keeps_scores_ask_by_get] | intros]).
  apply keeps_scores_ret.
Qed.

Lemma run_check_run_practice_section check w :
  check_questions check <> [] ->
  run_check check w
  = match run_practice_section (check_title check) (check_questions check) w with
    | (w', Ok (score, total, _, _)) => (w', Ok (score, total))
    | (w', Raise e) => (w', Raise e)
    end.
Proof.
  intros Hne. unfold run_check, run_practice_section.
  destruct (check_questions check) as [|q qs] eqn:E; [congruence|].
  cbv [bind print ret].
  rewrite (check_loop_quiz_loop (q :: qs) 0 (length (q :: qs)) 0 []).
  match goal with |- context [quiz_loop ?a ?i ?l ?t ?s ?wr ?w0] =>
    destruct (quiz_loop a i l t s wr w0) as [w' [[score wrong]|e]] end;
    reflexivity.
Qed.

(** X15.  [run_check] is a practice section without the list of wrong
    answers: with no questions to ask (no ["check"] key, no ["questions"]
    key or an empty list) it returns [(0, 0)] and prints nothing; otherwise
    it prints, reads and fails exactly as [run_practice_section] does with
    the title of the check, and returns that section's score and total.  So
    the total it returns is the number of questions, the score is at most the
    total, and a total of zero is returned only when nothing was asked. *)
Theorem X15_run_check_as_practice_section (check : option check_data) (w : world) :
  (check_questions check = [] -> run_check check w = (w, Ok (0, 0)))
  /\ (check_questions check <> [] ->
      run_check check w
      = match run_practice_section (check_title check) (check_questions check) w with
        | (w', Ok (score, total, _, _)) => (w', Ok (score, total))
        | (w', Raise e) => (w', Raise e)
        end)
  /\ (forall w' score total,
        run_check check w = (w', Ok (score, total)) ->
        total = length (check_questions check)
        /\ score <= total
        /\ presented w' = presented w ++ check_questions check
        /\ scores w' = scores w
        /\ (total = 0 -> w' = w)).
Proof.
  split; [|split].
  - intros E. unfold run_check. rewrite E. reflexivity.
  - apply run_check_run_practice_section.
  - intros w' score total H.
    destruct (check_questions check) as [|q qs] eqn:E.
    + unfold run_check in H. rewrite E in H. injection H as <- <- <-.
      rewrite app_nil_r. repeat split; auto.
    + rewrite run_check_run_practice_section in H by (rewrite E; discriminate).
      rewrite E in H.
      destruct (run_practice_section (check_title check) (q :: qs) w)
        as [w1 [[[[score1 total1] wrong] used]|e]] eqn:Hrun; [|discriminate].
      injection H as <- <- <-.
      pose proof (keeps_scores_run_practice_section (check_title check) (q :: qs) w)
        as Hs.
      rewrite Hrun in Hs. simpl in Hs.
      apply run_practice_section_inv in Hrun.
      destruct Hrun as (-> & -> & Hp & Hsum & _ & _).
      split; [reflexivity|]. split; [lia|]. split; [exact Hp|].
      split; [exact Hs|]. simpl. discriminate.
Qed.

End CheckFacts.

Lemma X15_witness_sample_check :
  exists w',
    run_check sample_check session_wrong_first = (w', Ok (1, 2))
    /\ presented w' = sample_questions.
Proof.
  assert (Hrun : run_check sample_check session_wrong_first
                 = ((run_check sample_check session_wrong_first).1, Ok (1, 2)))
    by (vm_compute; reflexivity).
  eexists. split; [exact Hrun|].
  apply (proj2 (proj2 (X15_run_check_as_practice_section sample_check
                         session_wrong_first)) _ 1 2 Hrun).
Defined.

(** ** The review file *)

Section ReviewFacts.

Lemma review_block_Ok q block :
  review_block q = Ok block ->
  exists answer explanation,
    get_correct_answer_text q = Ok answer
    /\ q_explanation q = Some explanation
    /\ block = [ RText (concat (repeat (lit "-") 40));
                 RText (match q_question q with
                        | Some _ => lit "Question:"
                        | None => lit "Prompt:"
                        end);
                 RText (review_text q);
                 RText [];
                 RText (lit "Correct answer: " ++ answer);
                 RText [];
                 RText (lit "Explanation: " ++ explanation);
                 RText [] ].
Proof.
  unfold review_block.
  destruct (get_correct_answer_text q) as [answer|e]; [|discriminate].
  destruct (q_explanation q) as [explanation|]; [|discriminate].
  intros [= <-]. exists answer, explanation. auto.
Qed.

Lemma review_block_Raise q e :
  review_block q = Raise e -> e = KeyError /\ complete true q = false.
Proof.
  unfold review_block, get_correct_answer_text, complete, complete_mc,
    complete_open.
  destruct (q_type q) as [t|]; [|intros [= <-]; auto].
  destruct (is_mc t).
  - destruct (q_options q) as [options|];
      [|intros [= <-]; split; [reflexivity|destruct (q_question q); reflexivity]].
    destruct (q_correct_option q) as [c|];
      [|intros [= <-]; split; [reflexivity|destruct (q_question q); reflexivity]].
    destruct (q_explanation q); [discriminate|].
    intros [= <-]. split; [reflexivity|destruct (q_question q); reflexivity].
  - destruct (q_explanation q); [discriminate|].
    intros [= <-]. split; [reflexivity|destruct (q_answers q); reflexivity].
Qed.

Lemma review_block_complete q :
  complete true q = true -> exists block, review_block q = Ok block.
Proof.
  intros Hc. destruct (review_block q) as [block|e] eqn:E; [eauto|].
  apply review_block_Raise in E. destruct E as [_ E]. congruence.
Qed.

Lemma review_blocks_Ok questions_list : forall wrong_indices blocks,
  review_blocks questions_list wrong_indices = Ok blocks ->
  length blocks = 8 * length wrong_indices
  /\ forall k i, wrong_indices !! k = Some i ->
       exists q block,
         questions_list !! i = Some q
         /\ review_block q = Ok block
         /\ take 8 (drop (8 * k) blocks) = block.
Proof.
  induction wrong_indices as [|i rest IH]; intros blocks H; simpl in H.
  - injection H as <-. split; [reflexivity|]. intros k i Hk.
    rewrite lookup_nil in Hk. discriminate.
  - destruct (questions_list !! i) as [q|] eqn:Hq; [|discriminate].
    destruct (review_block q) as [block|] eqn:Hb; [|discriminate].
    destruct (review_blocks questions_list rest) as [blocks'|] eqn:Hr;
      [|discriminate].
    injection H as <-.
    destruct (IH blocks' eq_refl) as [Hlen Hat].
    pose proof Hb as Hb'. apply review_block_Ok in Hb'.
    destruct Hb' as (answer & explanation & _ & _ & Hblock).
    assert (Hl : length block = 8) by (rewrite Hblock; reflexivity).
    split; [rewrite length_app; simpl; lia|].
    intros [|k] j Hk; simpl in Hk.
    + injection Hk as <-. exists q, block. split; [exact Hq|]. split; [exact Hb|].
      change (8 * 0) with 0. rewrite drop_0. apply take_app_length'. symmetry. exact Hl.
    + destruct (Hat k j Hk) as (q' & block' & Hq' & Hb'' & Htake).
      exists q', block'. split; [exact Hq'|]. split; [exact Hb''|].
      replace (8 * S k) with (length block + 8 * k) by lia.
      rewrite drop_app_add' by reflexivity. exact Htake.
Qed.

Lemma review_blocks_Raise questions_list : forall wrong_indices e,
  review_blocks questions_list wrong_indices = Raise e ->
  (e = IndexError /\ Exists (fun i => length questions_list <= i) wrong_indices)
  \/ (e = KeyError
      /\ exists i q, i ∈ wrong_indices /\ questions_list !! i = Some q
                     /\ complete true q = false).
Proof.
  induction wrong_indices as [|i rest IH]; intros e H; simpl in H; [discriminate|].
  destruct (questions_list !! i) as [q|] eqn:Hq.
  - destruct (review_block q) as [block|e1] eqn:Hb.
    + destruct (review_blocks questions_list rest) as [blocks'|e2] eqn:Hr;
        [discriminate|].
      injection H as <-. destruct (IH e2 eq_refl) as [[-> Hex] | [-> Hex]].
      * left. split; [reflexivity|]. apply Exists_cons. right. exact Hex.
      * right. split; [reflexivity|].
        destruct Hex as (j & q' & Hj & Hq' & Hc). exists j, q'.
        split; [right; exact Hj|]. auto.
    + injection H as <-. apply review_block_Raise in Hb. destruct Hb as [-> Hc].
      right. split; [reflexivity|]. exists i, q. split; [left|]. auto.
  - injection H as <-. left. split; [reflexivity|].
    apply Exists_cons. left. apply lookup_ge_None. exact Hq.
Qed.

Lemma export_wrong_answers_Ok review_path questions_list wrong_indices set_title
    d d' u :
  export_wrong_answers review_path questions_list wrong_indices set_title d
    = (d', Ok u) ->
  exists stamp blocks,
    review_blocks questions_list wrong_indices = Ok blocks
    /\ review_file d'
       = Some ([ RText (ruler "="); RTitle set_title; RGenerated stamp;
                 RText (ruler "="); RText [] ] ++ blocks)
    /\ stdout (desk_world d')
       = stdout (desk_world d) ++ [Plain (lit "Saved to: " ++ review_path)]
    /\ stdin (desk_world d') = stdin (desk_world d)
    /\ scores (desk_world d') = scores (desk_world d).
Proof.
  unfold export_wrong_answers. simpl.
  destruct (review_blocks questions_list wrong_indices) as [blocks|e];
    [|discriminate].
  intros [= <-]. eexists _, blocks. repeat split.
Qed.

Lemma export_wrong_answers_Raise review_path questions_list wrong_indices set_title
    d d' e :
  export_wrong_answers review_path questions_list wrong_indices set_title d
    = (d', Raise e) ->
  review_blocks questions_list wrong_indices = Raise e
  /\ review_file d' = review_file d
  /\ stdout (desk_world d') = stdout (desk_world d).
Proof.
  unfold export_wrong_answers. simpl.
  destruct (review_blocks questions_list wrong_indices) as [blocks|e'];
    [discriminate|].
  intros [= <- <-]. repeat split.
Qed.

(** X16.  When [export_wrong_answers] returns, the review file holds five
    header lines and eight lines for each wrong index, in the order of the
    indices, whatever it held before; the block of the [k]-th index shows
    that question's text, its correct answer and its explanation; and one
    line, the path of the file, has been printed.  When it raises, it has
    not touched the file and has printed nothing, and the exception is
    [IndexError] for an index that is no position of the list or
    [KeyError] for a question that lacks its type or a key of its type. *)
Theorem X16_export_wrong_answers (review_path : str)
    (questions_list : list question) (wrong_indices : list nat)
    (set_title : str) (d : desk) :
  (forall d' u,
     export_wrong_answers review_path questions_list wrong_indices set_title d
       = (d', Ok u) ->
     exists lines,
       review_file d' = Some lines
       /\ length lines = 5 + 8 * length wrong_indices
       /\ lines !! 1 = Some (RTitle set_title)
       /\ stdout (desk_world d')
          = stdout (desk_world d) ++ [Plain (lit "Saved to: " ++ review_path)]
       /\ forall k i, wrong_indices !! k = Some i ->
            exists q answer explanation,
              questions_list !! i = Some q
              /\ get_correct_answer_text q = Ok answer
              /\ q_explanation q = Some explanation
              /\ lines !! (5 + 8 * k + 2) = Some (RText (review_text q))
              /\ lines !! (5 + 8 * k + 4)
                 = Some (RText (lit "Correct answer: " ++ answer))
              /\ lines !! (5 + 8 * k + 6)
                 = Some (RText (lit "Explanation: " ++ explanation)))
  /\ (forall d' e,
        export_wrong_answers review_path questions_list wrong_indices set_title d
          = (d', Raise e) ->
        review_file d' = review_file d
        /\ stdout (desk_world d') = stdout (desk_world d)
        /\ ((e = IndexError
             /\ Exists (fun i => length questions_list <= i) wrong_indices)
            \/ (e = KeyError
                /\ exists i q, i ∈ wrong_indices /\ questions_list !! i = Some q
                               /\ complete true q = false))).
Proof.
  split.
  - intros d' u H. apply export_wrong_answers_Ok in H.
    destruct H as (stamp & blocks & Hb & Hfile & Hout & _ & _).
    apply review_blocks_Ok in Hb. destruct Hb as [Hlen Hat].
    eexists. split; [exact Hfile|].
    split; [rewrite length_app, Hlen; reflexivity|].
    split; [reflexivity|]. split; [exact Hout|].
    intros k i Hk. destruct (Hat k i Hk) as (q & block & Hq & Hblock & Htake).
    apply review_block_Ok in Hblock.
    destruct Hblock as (answer & explanation & Ha & He & ->).
    exists q, answer, explanation.
    split; [exact Hq|]. split; [exact Ha|]. split; [exact He|].
    assert (Hj : forall j x,
               [ RText (concat (repeat (lit "-") 40));
                 RText (match q_question q with
                        | Some _ => lit "Question:"
                        | None => lit "Prompt:"
                        end);
                 RText (review_text q);
                 RText [];
                 RText (lit "Correct answer: " ++ answer);
                 RText [];
                 RText (lit "Explanation: " ++ explanation);
                 RText [] ] !! j = Some x ->
               ([ RText (ruler "="); RTitle set_title; RGenerated stamp;
                  RText (ruler "="); RText [] ] ++ blocks) !! (5 + 8 * k + j)
               = Some x).
    { intros j x Hx. rewrite <- Htake in Hx.
      apply lookup_take_Some in Hx. destruct Hx as [Hx _].
      rewrite lookup_drop in Hx.
      rewrite lookup_app_r by (simpl; lia).
      replace (5 + 8 * k + j - length _) with (8 * k + j) by (simpl; lia).
      exact Hx. }
    split; [apply Hj; reflexivity|]. split; apply Hj; reflexivity.
  - intros d' e H. apply export_wrong_answers_Raise in H.
    destruct H as (Hb & Hfile & Hout).
    split; [exact Hfile|]. split; [exact Hout|].
    apply review_blocks_Raise. exact Hb.
Qed.

(** X17.  After [run_set] has returned, exporting its wrong answers always
    succeeds, as [main_menu] does with the list and the indices that
    [run_set] returned: the indices are positions of that list and the
    questions there are complete.  The file then has five lines and eight
    more for each question that was not answered right. *)
Theorem X17_export_after_run_set (questions : list question) (title : str)
    (shuffle : bool) (max_questions : option Z) (w w' : world)
    (score total : nat) (wrong_indices : list nat) (questions_used : list question)
    (review_path : str) (old : option (list review_line)) :
  run_set questions title shuffle max_questions w
    = (w', Ok (score, total, wrong_indices, questions_used)) ->
  exists d' lines,
    export_wrong_answers review_path questions_used wrong_indices title
      (Desk w' old) = (d', Ok tt)
    /\ review_file d' = Some lines
    /\ length lines = 5 + 8 * (total - score).
Proof.
  intros Hrun.
  pose proof (run_set_loop _ _ _ _ _ _ _ _ _ _ Hrun) as [w0 Hloop].
  apply (quiz_loop_complete _ (complete true) ask_by_item_complete) in Hloop.
  apply run_set_inv in Hrun.
  destruct Hrun as (ordering & _ & _ & _ & Htotal & _ & Hsum & _ & Hrange).
  destruct (export_wrong_answers review_path questions_used wrong_indices title
              (Desk w' old)) as [d' [[]|e]] eqn:E.
  - pose proof E as E'. apply export_wrong_answers_Ok in E'.
    destruct E' as (stamp & blocks & Hb & Hfile & _).
    apply review_blocks_Ok in Hb. destruct Hb as [Hlen _].
    eexists d', _. split; [reflexivity|]. split; [exact Hfile|].
    rewrite length_app, Hlen. simpl. lia.
  - exfalso. apply export_wrong_answers_Raise in E. destruct E as (Hb & _).
    apply review_blocks_Raise in Hb.
    destruct Hb as [[_ Hex] | [_ (i & q & Hi & Hq & Hc)]].
    + apply Exists_exists in Hex. destruct Hex as (i & Hi & Hge).
      rewrite Forall_forall in Hrange. specialize (Hrange i Hi). lia.
    + rewrite Forall_forall in Hloop.
      apply list_elem_of_lookup_2 in Hq. specialize (Hloop q Hq). congruence.
Qed.

End ReviewFacts.

Lemma X16_witness_overwrites :
  exists d' lines,
    export_wrong_answers (lit "wrong_answers_review.txt") sample_questions [0]
      (lit "Set 1") sample_desk = (d', Ok tt)
    /\ review_file d' = Some lines
    /\ length lines = 13.
Proof.
  assert (Hrun : export_wrong_answers (lit "wrong_answers_review.txt")
                   sample_questions [0] (lit "Set 1") sample_desk
                 = ((export_wrong_answers (lit "wrong_answers_review.txt")
                       sample_questions [0] (lit "Set 1") sample_desk).1, Ok tt))
    by (vm_compute; reflexivity).
  destruct (proj1 (X16_export_wrong_answers (lit "wrong_answers_review.txt")
                     sample_questions [0] (lit "Set 1") sample_desk) _ tt Hrun)
    as (lines & Hfile & Hlen & _).
  eexists _, lines. split; [exact Hrun|]. split; [exact Hfile | exact Hlen].
Defined.

Lemma X17_witness_one_wrong :
  exists d' lines,
    export_wrong_answers (lit "wrong_answers_review.txt") sample_questions [0]
      (lit "Set 1")
      (Desk (run_set sample_questions (lit "Set 1") false None
               session_wrong_first).1 None) = (d', Ok tt)
    /\ review_file d' = Some lines
    /\ length lines = 5 + 8 * (2 - 1).
Proof.
  assert (Hrun : run_set sample_questions (lit "Set 1") false None session_wrong_first
                 = ((run_set sample_questions (lit "Set 1") false None
                       session_wrong_first).1,
                    Ok (1, 2, [0], sample_questions)))
    by (vm_compute; reflexivity).
  apply (X17_export_after_run_set sample_questions (lit "Set 1") false None
           session_wrong_first _ 1 2 [0] sample_questions
           (lit "wrong_answers_review.txt") None Hrun).
Defined.

(** ** The number of questions to attempt *)

Section LimitFacts.

Variable int_of : str -> option Z.

(** X18.  The number that [main_menu] passes to [run_set] after "How many
    to attempt?" is never negative, so the slice of [run_set] never counts
    from the end of the list.  A run with that limit asks the first [total]
    questions of the ordering, where [total] is the whole list for an empty
    answer or one that is no number, and the typed number brought into
    the range from one to the length of the list otherwise: a nonempty set
    is never run with no question, whatever is typed. *)
Theorem X18_attempt_limit_run_set (questions : list question) (title typed : str)
    (shuffle : bool) (w w' : world) (score total : nat)
    (wrong_indices : list nat) (questions_used : list question) :
  run_set questions title shuffle
          (attempt_limit int_of typed (length questions)) w
    = (w', Ok (score, total, wrong_indices, questions_used)) ->
  (forall n, attempt_limit int_of typed (length questions) = Some n -> (0 <= n)%Z)
  /\ total = match strip typed, int_of (strip typed) with
             | _ :: _, Some n =>
                 Z.to_nat (Z.min (Z.max 1 n) (Z.of_nat (length questions)))
             | _, _ => length questions
             end
  /\ (questions <> [] -> 1 <= total <= length questions)
  /\ exists ordering,
       ordering ≡ₚ questions
       /\ (shuffle = false -> ordering = questions)
       /\ questions_used = take total ordering.
Proof.
  intros Hrun. apply run_set_inv in Hrun.
  destruct Hrun as (ordering & Hord & Hperm & Hused & Htotal & _).
  pose proof (Permutation_length Hperm) as Hlen.
  assert (Hnonneg : forall n,
             attempt_limit int_of typed (length questions) = Some n -> (0 <= n)%Z).
  { unfold attempt_limit. intros n.
    destruct (strip typed); [discriminate|].
    destruct (int_of _); intros [= <-]; lia. }
  assert (Hcount : total = match strip typed, int_of (strip typed) with
                           | _ :: _, Some n =>
                               Z.to_nat (Z.min (Z.max 1 n)
                                               (Z.of_nat (length questions)))
                           | _, _ => length questions
                           end
                   /\ questions_used = take total ordering).
  { subst total. unfold attempt_limit in Hused.
    destruct (strip typed) as [|c s].
    - subst questions_used. rewrite firstn_all. auto.
    - destruct (int_of (c :: s)) as [n|].
      + destruct (Z.ltb_spec (Z.max 1 (Z.min n (Z.of_nat (length questions))))
                             (Z.of_nat (length ordering))) as [Hlt|Hge].
        * unfold slice_to in Hused.
          destruct (Z.leb_spec 0 (Z.max 1 (Z.min n (Z.of_nat (length questions)))));
            [|lia].
          subst questions_used. rewrite length_take.
          split; [lia|]. f_equal. lia.
        * subst questions_used. rewrite firstn_all. split; [lia | reflexivity].
      + rewrite Hlen, Z.ltb_irrefl in Hused. subst questions_used.
        rewrite firstn_all. auto. }
  destruct Hcount as [Hcount Htake].
  split; [exact Hnonneg|]. split; [exact Hcount|]. split.
  - intros Hne. assert (0 < length questions)
      by (destruct questions; [congruence | simpl; lia]).
    rewrite Hcount. destruct (strip typed); [lia|].
    destruct (int_of _); lia.
  - exists ordering. split; [exact Hperm|]. split; [|exact Htake].
    intros ->. exact Hord.
Qed.

End LimitFacts.

Lemma X18_witness_zero_typed :
  exists w',
    run_set sample_questions (lit "Set 1") false
            (attempt_limit (fun _ => Some 0%Z) (lit " 0 ") (length sample_questions))
            (start [lit "b"] Missing)
      = (w', Ok (1, 1, [], [sample_mc]))
    /\ 1 <= 1 <= length sample_questions.
Proof.
  assert (Hrun : run_set sample_questions (lit "Set 1") false
                   (attempt_limit (fun _ => Some 0%Z) (lit " 0 ")
                      (length sample_questions))
                   (start [lit "b"] Missing)
                 = ((run_set sample_questions (lit "Set 1") false
                       (attempt_limit (fun _ => Some 0%Z) (lit " 0 ")
                          (length sample_questions))
                       (start [lit "b"] Missing)).1,
                    Ok (1, 1, [], [sample_mc])))
    by (vm_compute; reflexivity).
  eexists. split; [exact Hrun|].
  apply (X18_attempt_limit_run_set (fun _ => Some 0%Z) sample_questions
           (lit "Set 1") (lit " 0 ") false (start [lit "b"] Missing) _ 1 1 []
           [sample_mc] Hrun).
  discriminate.
Defined.
